(** * Joy2KeyMouse: a shallow embedding of [joy2keymouse.c]

    The daemon reads [input_event]s from a gamepad and writes synthesized
    pointer, wheel and key events to one virtual uinput device.  This file
    embeds [find_gamepad] and the body of [main] (the session loop, the
    hot-plug wait and the outer loop that sequences them) and proves what
    the design notes say about them.

    Conventions.
    - C integers are [Z]; where the source converts or multiplies in a fixed
      width, the two's-complement wrap-around is written out with [wrap].
    - A [double] is a [spec_float] of precision 53 and exponent bound 1024;
      the product of two doubles is [SFmul], the IEEE-754 round-to-nearest
      product.  [pow] belongs to libm and is not specified bit for bit, so
      the translation is parametric in it.
    - Every [libevdev_uinput_write_event] call appends one [event] to the
      list of writes the enclosing function returns. *)

From Stdlib Require Import ZArith List Bool Lia.
From Stdlib Require Import Floats.FloatClass Floats.SpecFloat.
Import ListNotations.
Local Open Scope Z_scope.

(** ** Constants of the kernel and libevdev headers *)

Module Codes.
(* linux/input-event-codes.h *)
Definition EV_SYN : Z := 0.
Definition EV_KEY : Z := 1.
Definition EV_REL : Z := 2.
Definition EV_ABS : Z := 3.

Definition SYN_REPORT : Z := 0.

Definition REL_X : Z := 0.
Definition REL_Y : Z := 1.
Definition REL_WHEEL_HI_RES : Z := 11.
Definition REL_HWHEEL_HI_RES : Z := 12.

Definition ABS_X : Z := 0.
Definition ABS_Y : Z := 1.
Definition ABS_Z : Z := 2.
Definition ABS_RX : Z := 3.
Definition ABS_RY : Z := 4.
Definition ABS_RZ : Z := 5.
Definition ABS_HAT0X : Z := 16.
Definition ABS_HAT0Y : Z := 17.

Definition KEY_TAB : Z := 15.
Definition KEY_ENTER : Z := 28.
Definition KEY_LEFTCTRL : Z := 29.
Definition KEY_A : Z := 30.
Definition KEY_LEFTSHIFT : Z := 42.
Definition KEY_LEFTALT : Z := 56.
Definition KEY_UP : Z := 103.
Definition KEY_LEFT : Z := 105.
Definition KEY_RIGHT : Z := 106.
Definition KEY_DOWN : Z := 108.
Definition KEY_LEFTMETA : Z := 125.

Definition BTN_LEFT : Z := 272.
Definition BTN_RIGHT : Z := 273.
Definition BTN_SIDE : Z := 275.
Definition BTN_EXTRA : Z := 276.

Definition BTN_SOUTH : Z := 304.
Definition BTN_A : Z := BTN_SOUTH.
Definition BTN_EAST : Z := 305.
Definition BTN_NORTH : Z := 307.
Definition BTN_WEST : Z := 308.
Definition BTN_TL : Z := 310.
Definition BTN_TR : Z := 311.
Definition BTN_SELECT : Z := 314.
Definition BTN_START : Z := 315.
Definition BTN_THUMBL : Z := 317.
Definition BTN_THUMBR : Z := 318.
Definition BTN_DPAD_UP : Z := 544.
Definition BTN_DPAD_DOWN : Z := 545.
Definition BTN_DPAD_LEFT : Z := 546.
Definition BTN_DPAD_RIGHT : Z := 547.

(* errno.h *)
Definition EAGAIN : Z := 11.
Definition ENODEV : Z := 19.

(* libevdev.h *)
Definition LIBEVDEV_READ_STATUS_SUCCESS : Z := 0.
Definition LIBEVDEV_READ_STATUS_SYNC : Z := 1.
End Codes.
Import Codes.

(** ** Events

    [struct input_event] without its timestamp; the same triple is what
    [libevdev_uinput_write_event] takes. *)

Record event := Event { ev_type : Z; ev_code : Z; ev_value : Z }.

Definition event_eqb (a b : event) : bool :=
  (ev_type a =? ev_type b) && (ev_code a =? ev_code b) && (ev_value a =? ev_value b).

(** [libevdev_uinput_write_event(uinput, EV_KEY, code, value)] *)
Definition key_event (code value : Z) : event := Event EV_KEY code value.

(** [libevdev_uinput_write_event(uinput, EV_REL, code, value)] *)
Definition rel_event (code value : Z) : event := Event EV_REL code value.

(** [libevdev_uinput_write_event(uinput, EV_SYN, SYN_REPORT, 0)] *)
Definition syn_report : event := Event EV_SYN SYN_REPORT 0.

Definition is_syn_report (e : event) : bool := event_eqb e syn_report.

Definition is_key_event (e : event) : bool := ev_type e =? EV_KEY.

(** Number of batch-boundary markers in a list of writes. *)
Definition count_syn (out : list event) : nat :=
  length (filter is_syn_report out).

(** The batches of a write log: the events between consecutive
    [SYN_REPORT] markers, each batch closed by its marker.  Events after
    the last marker are an unfinished batch and are returned apart. *)
Fixpoint batches_aux (cur : list event) (out : list event)
  : list (list event) * list event :=
  match out with
  | [] => ([], rev cur)
  | e :: rest =>
      if is_syn_report e
      then let '(bs, tl) := batches_aux [] rest in (rev cur :: bs, tl)
      else batches_aux (e :: cur) rest
  end.

Definition batches (out : list event) : list (list event) :=
  fst (batches_aux [] out).

(** ** Key state seen by a consumer of the sink *)

(** Whether [key] is down after the writes [out], given whether it was down
    before: the last [EV_KEY] write for [key] decides. *)
Fixpoint key_down (key : Z) (before : bool) (out : list event) : bool :=
  match out with
  | [] => before
  | e :: rest =>
      if is_key_event e && (ev_code e =? key)
      then key_down key (negb (ev_value e =? 0)) rest
      else key_down key before rest
  end.

(** No prefix of [out] leaves both [k1] and [k2] down, starting from the
    given key states. *)
Fixpoint never_both_down (k1 k2 : Z) (d1 d2 : bool) (out : list event) : bool :=
  negb (d1 && d2) &&
  match out with
  | [] => true
  | e :: rest =>
      never_both_down k1 k2 (key_down k1 d1 [e]) (key_down k2 d2 [e]) rest
  end.

(** ** Per-session state: the locals of [main] declared after
    [find_gamepad] succeeds *)

Record session := Session {
  lx : Z; ly : Z; rx : Z; ry : Z;
  slx : Z; sly : Z; srx : Z; sry : Z;
  hat0x : Z; hat0y : Z;
  lz : bool; rz : bool;
  last_time : Z
}.

Definition init_session (now : Z) : session :=
  {| lx := 0; ly := 0; rx := 0; ry := 0;
     slx := 0; sly := 0; srx := 0; sry := 0;
     hat0x := 0; hat0y := 0;
     lz := false; rz := false;
     last_time := now |}.

Definition z_down_threshold : Z := 512.
Definition z_up_threshold : Z := 256.

(** ** The directional pad: cases [ABS_HAT0X] and [ABS_HAT0Y]

    The two cases differ only in the variable and the key pair. *)
Definition hat_axis (neg_key pos_key : Z) (hat value : Z) : Z * list event :=
  let up :=
    if negb (hat =? 0) && negb (hat =? value)
    then [key_event (if hat <? 0 then neg_key else pos_key) 0; syn_report]
    else [] in
  let hat' := value in
  let down :=
    if negb (hat' =? 0)
    then [key_event (if hat' <? 0 then neg_key else pos_key) 1; syn_report]
    else [] in
  (hat', up ++ down).

(** ** The analog triggers: cases [ABS_Z] and [ABS_RZ]

    Two consecutive [if]s; the second one reads the flag the first one may
    have just set. *)
Definition trigger_latch (key : Z) (value : Z) (z : bool) : bool * list event :=
  let '(z1, out1) :=
    if (value >? z_down_threshold) && negb z
    then (true, [key_event key (Z.b2z true); syn_report])
    else (z, []) in
  let '(z2, out2) :=
    if (value <? z_up_threshold) && z1
    then (false, [key_event key (Z.b2z false); syn_report])
    else (z1, []) in
  (z2, out1 ++ out2).

(** ** Buttons: the [switch (ev.code)] under [case EV_KEY], without the
    [SYN_REPORT] that follows the switch *)
Definition button_writes (code value : Z) : list event :=
  if code =? BTN_SOUTH then [key_event BTN_LEFT value]
  else if code =? BTN_EAST then [key_event BTN_RIGHT value]
  else if code =? BTN_SELECT then [key_event KEY_LEFTMETA value]
  else if code =? BTN_START then
    [key_event KEY_LEFTMETA value; key_event KEY_A value]
  else if code =? BTN_TR then [key_event KEY_TAB value]
  else if code =? BTN_TL then
    [key_event KEY_LEFTSHIFT value; key_event KEY_TAB value]
  else if code =? BTN_DPAD_UP then [key_event KEY_UP value]
  else if code =? BTN_DPAD_DOWN then [key_event KEY_DOWN value]
  else if code =? BTN_DPAD_LEFT then [key_event KEY_LEFT value]
  else if code =? BTN_DPAD_RIGHT then [key_event KEY_RIGHT value]
  else if code =? BTN_WEST then [key_event BTN_EXTRA value]
  else if code =? BTN_NORTH then [key_event BTN_SIDE value]
  else if code =? BTN_THUMBL then [key_event KEY_LEFTALT value]
  else if code =? BTN_THUMBR then [key_event KEY_ENTER value]
  else [].

(** The whole [case EV_KEY]: the switch, then one [SYN_REPORT]. *)
Definition on_key (code value : Z) : list event :=
  button_writes code value ++ [syn_report].

(** The [switch (ev.code)] under [case EV_ABS]. *)
Definition on_abs (st : session) (code value : Z) : session * list event :=
  if code =? ABS_X then
    ({| lx := value; ly := ly st; rx := rx st; ry := ry st;
        slx := slx st; sly := sly st; srx := srx st; sry := sry st;
        hat0x := hat0x st; hat0y := hat0y st; lz := lz st; rz := rz st;
        last_time := last_time st |}, [])
  else if code =? ABS_Y then
    ({| lx := lx st; ly := value; rx := rx st; ry := ry st;
        slx := slx st; sly := sly st; srx := srx st; sry := sry st;
        hat0x := hat0x st; hat0y := hat0y st; lz := lz st; rz := rz st;
        last_time := last_time st |}, [])
  else if code =? ABS_RX then
    ({| lx := lx st; ly := ly st; rx := value; ry := ry st;
        slx := slx st; sly := sly st; srx := srx st; sry := sry st;
        hat0x := hat0x st; hat0y := hat0y st; lz := lz st; rz := rz st;
        last_time := last_time st |}, [])
  else if code =? ABS_RY then
    ({| lx := lx st; ly := ly st; rx := rx st; ry := value;
        slx := slx st; sly := sly st; srx := srx st; sry := sry st;
        hat0x := hat0x st; hat0y := hat0y st; lz := lz st; rz := rz st;
        last_time := last_time st |}, [])
  else if code =? ABS_HAT0X then
    let '(h, out) := hat_axis KEY_LEFT KEY_RIGHT (hat0x st) value in
    ({| lx := lx st; ly := ly st; rx := rx st; ry := ry st;
        slx := slx st; sly := sly st; srx := srx st; sry := sry st;
        hat0x := h; hat0y := hat0y st; lz := lz st; rz := rz st;
        last_time := last_time st |}, out)
  else if code =? ABS_HAT0Y then
    let '(h, out) := hat_axis KEY_UP KEY_DOWN (hat0y st) value in
    ({| lx := lx st; ly := ly st; rx := rx st; ry := ry st;
        slx := slx st; sly := sly st; srx := srx st; sry := sry st;
        hat0x := hat0x st; hat0y := h; lz := lz st; rz := rz st;
        last_time := last_time st |}, out)
  else if code =? ABS_Z then
    let '(z, out) := trigger_latch KEY_LEFTCTRL value (lz st) in
    ({| lx := lx st; ly := ly st; rx := rx st; ry := ry st;
        slx := slx st; sly := sly st; srx := srx st; sry := sry st;
        hat0x := hat0x st; hat0y := hat0y st; lz := z; rz := rz st;
        last_time := last_time st |}, out)
  else if code =? ABS_RZ then
    let '(z, out) := trigger_latch KEY_LEFTSHIFT value (rz st) in
    ({| lx := lx st; ly := ly st; rx := rx st; ry := ry st;
        slx := slx st; sly := sly st; srx := srx st; sry := sry st;
        hat0x := hat0x st; hat0y := hat0y st; lz := lz st; rz := z;
        last_time := last_time st |}, out)
  else (st, []).

(** The [switch (ev.type)]: what one input event does to the session state
    and what it writes to the sink. *)
Definition handle_event (st : session) (ev : event) : session * list event :=
  if ev_type ev =? EV_ABS then on_abs st (ev_code ev) (ev_value ev)
  else if ev_type ev =? EV_KEY then (st, on_key (ev_code ev) (ev_value ev))
  else (st, []).

(** Feeding a list of input events, one per loop iteration, and
    collecting the writes. *)
Fixpoint handle_events (st : session) (evs : list event) : session * list event :=
  match evs with
  | [] => (st, [])
  | ev :: rest =>
      let '(st1, out1) := handle_event st ev in
      let '(st2, out2) := handle_events st1 rest in
      (st2, out1 ++ out2)
  end.

(** ** Fixed-width integers *)

(** The value of [x] as a two's-complement integer of [w] bits. *)
Definition wrap (w : Z) (x : Z) : Z :=
  (x + 2 ^ (w - 1)) mod 2 ^ w - 2 ^ (w - 1).

Definition int32 : Z -> Z := wrap 32.
Definition int64 : Z -> Z := wrap 64.

Definition INT64_MIN : Z := - 2 ^ 63.
Definition INT64_MAX : Z := 2 ^ 63 - 1.

(** [abs] of stdlib.h on an [int]. *)
Definition c_abs (x : Z) : Z := int32 (Z.abs x).

(** ** Doubles *)

Definition prec : Z := 53.
Definition emax : Z := 1024.
Definition double : Type := spec_float.

(** [(double)z] for an integer [z]: rounded to nearest, exact below 2^53. *)
Definition double_of_int (z : Z) : double := binary_normalize prec emax z 0 false.

(** [x * y] on doubles. *)
Definition double_mul (x y : double) : double := SFmul prec emax x y.

(** The integer part of a finite double (its value rounded toward zero). *)
Definition double_trunc (f : double) : option Z :=
  match f with
  | S754_zero _ => Some 0
  | S754_finite s m e =>
      let mag := Z.shiftl (Zpos m) e in
      Some (if s then - mag else mag)
  | S754_infinity _ | S754_nan => None
  end.

(** [(int64_t)f]: the integer part when it is representable; C leaves the
    conversion undefined otherwise, which is [None] here. *)
Definition int64_of_double (f : double) : option Z :=
  match double_trunc f with
  | Some z => if (INT64_MIN <=? z) && (z <=? INT64_MAX) then Some z else None
  | None => None
  end.

(** The double nearest to the literal [1.01]. *)
Definition double_1_01 : double := S754_finite false 4548635623644201 (-52).

(** ** AxisAccelerator: the expression assigned to [slx], [sly], [srx], [sry] *)

(** The constants of one stick: [lbase, ldiv1, lsub, ldiv2, lmul] or their
    [r] counterparts. *)
Record accel := Accel {
  base : double; div1 : Z; sub : Z; div2 : Z; mul : Z
}.

Definition lparams : accel :=
  {| base := double_1_01; div1 := Z.shiftl 1 9; sub := Z.shiftl 1 13;
     div2 := Z.shiftl 1 36; mul := 1 |}.

Definition rparams : accel :=
  {| base := double_1_01; div1 := Z.shiftl 1 9; sub := Z.shiftl 1 13;
     div2 := Z.shiftl 1 36; mul := 2 |}.

(** [(abs(v) - sub) / div1], computed in [int64_t]; C division truncates. *)
Definition exponent (P : accel) (v : Z) : Z :=
  Z.quot (c_abs v - sub P) (div1 P).

Section Libm.
(** [pow] of math.h. *)
Variable pow : double -> double -> double.

(** [(int64_t)(pow(base, (double)((abs(v) - sub) / div1)) * v)] *)
Definition scaled (P : accel) (v : Z) : option Z :=
  int64_of_double
    (double_mul (pow (base P) (double_of_int (exponent P v))) (double_of_int v)).

(** [(int)(scaled * interval / div2 * mul)]: the product and the final
    multiplication are 64-bit, the quotient truncates, the result is
    converted to [int]. *)
Definition axis_delta (P : accel) (v interval : Z) : option Z :=
  match scaled P v with
  | Some a =>
      Some (int32 (int64 (Z.quot (int64 (a * interval)) (div2 P) * mul P)))
  | None => None
  end.

(** [if (slx || sly) { REL_X; REL_Y; SYN_REPORT }] *)
Definition emit_pointer (dx dy : Z) : list event :=
  if negb (dx =? 0) || negb (dy =? 0)
  then [rel_event REL_X dx; rel_event REL_Y dy; syn_report]
  else [].

(** [if (srx || sry) { one wheel axis; SYN_REPORT }] *)
Definition emit_scroll (dx dy : Z) : list event :=
  if negb (dx =? 0) || negb (dy =? 0)
  then [ if c_abs dx >? c_abs dy
         then rel_event REL_HWHEEL_HI_RES (int32 (- dx))
         else rel_event REL_WHEEL_HI_RES dy;
         syn_report ]
  else [].

(** The tail of the loop body: recompute the four deltas from the stick
    positions and the elapsed time, and emit pointer and wheel motion. *)
Definition recompute (st : session) (interval : Z) : option (session * list event) :=
  match axis_delta lparams (lx st) interval, axis_delta lparams (ly st) interval,
        axis_delta rparams (rx st) interval, axis_delta rparams (ry st) interval with
  | Some dlx, Some dly, Some drx, Some dry =>
      Some ({| lx := lx st; ly := ly st; rx := rx st; ry := ry st;
               slx := dlx; sly := dly; srx := drx; sry := dry;
               hat0x := hat0x st; hat0y := hat0y st; lz := lz st; rz := rz st;
               last_time := last_time st |},
            emit_pointer dlx dly ++ emit_scroll drx dry)
  | _, _, _, _ => None
  end.

(** What [poll] reported: its return value and the [revents] of the
    signal descriptor and of the watched descriptor. *)
Record poll_result := Poll {
  poll_rc : Z; signal_revents : Z; watch_revents : Z
}.

(** The timeout of the session's [poll]. *)
Definition poll_timeout (st : session) : Z :=
  if negb (slx st =? 0) || negb (sly st =? 0) ||
     negb (srx st =? 0) || negb (sry st =? 0)
  then 20 else -1.

(** How one pass through the session loop ends. *)
Inductive outcome :=
| Continue (st : session) (out : list event)
| Quit           (* the signal descriptor fired: [quit = true; break] *)
| Disconnected   (* the read returned [-ENODEV]: [break] *)
| Fatal          (* [err(EXIT_FAILURE, ...)] *)
| Undefined.     (* a conversion to [int64_t] C does not define *)

(** One pass through [while (true)] of the session: [now] is what
    [get_time] returns after [poll], [p] what [poll] reported, [rc] and
    [ev] what [libevdev_next_event] returns and stores (read only when
    the device descriptor fired). *)
Definition iteration (st : session) (now : Z) (p : poll_result)
           (rc : Z) (ev : event) : outcome :=
  let interval := int64 (now - last_time st) in
  let st0 := {| lx := lx st; ly := ly st; rx := rx st; ry := ry st;
                slx := slx st; sly := sly st; srx := srx st; sry := sry st;
                hat0x := hat0x st; hat0y := hat0y st; lz := lz st; rz := rz st;
                last_time := now |} in
  if poll_rc p <? 0 then Fatal
  else if negb (signal_revents p =? 0) then Quit
  else
    let after_read :=
      if negb (watch_revents p =? 0) then
        if rc <? 0 then
          if rc =? - ENODEV then inl Disconnected else inl Fatal
        else inr (handle_event st0 ev)
      else inr (st0, []) in
    match after_read with
    | inl o => o
    | inr (st1, out1) =>
        match recompute st1 interval with
        | Some (st2, out2) => Continue st2 (out1 ++ out2)
        | None => Undefined
        end
    end.
End Libm.

(** The double [1.0]. *)
Definition double_one : double := S754_finite false 4503599627370496 (-52).

(** One admissible [pow] for integral exponents, used to run the model on
    concrete inputs: [|n|] rounded multiplications by the base, inverted
    for negative [n].  It returns exactly 1 for the exponent 0, as C
    requires of [pow]. *)
Definition pow_iter (b y : double) : double :=
  match double_trunc y with
  | Some n =>
      let p := Z.iter (Z.abs n) (fun acc => double_mul acc b) double_one in
      if n <? 0 then SFdiv prec emax double_one p else p
  | None => S754_nan
  end.

(** ** DeviceLocator: [find_gamepad] *)

(** The capability bits libevdev reads from an event device. *)
Record evdev := Evdev {
  dev_types : list Z;
  dev_codes : list (Z * Z)
}.

Definition libevdev_has_event_type (d : evdev) (type : Z) : bool :=
  existsb (Z.eqb type) (dev_types d).

(** libevdev answers for a code only when the type itself is enabled. *)
Definition libevdev_has_event_code (d : evdev) (type code : Z) : bool :=
  libevdev_has_event_type d type &&
  existsb (fun tc => (fst tc =? type) && (snd tc =? code)) (dev_codes d).

(** What [/dev/input/event<i>] is when [find_gamepad] reaches it. *)
Inductive node :=
| Unopenable              (* [open] returns a negative descriptor *)
| NotEvdev                (* opens, [libevdev_new_from_fd] fails *)
| Device (d : evdev).     (* opens and libevdev reads its capabilities *)

Definition namespace : Type := nat -> node.

(** Everything the program does to the outside, in order. *)
Inductive effect :=
| Open (i : nat)          (* [open] of [event<i>], successful or not *)
| Free (i : nat)          (* [libevdev_free] of the device of [event<i>] *)
| Close (i : nat)         (* [close] of the descriptor of [event<i>] *)
| Write (e : event)       (* [libevdev_uinput_write_event] *)
| CloseInotify            (* [close(ino_fd)] *)
| DestroyUinput.          (* [libevdev_uinput_destroy] *)

(** The condition of the [if] that returns the device. *)
Definition is_gamepad (d : evdev) : bool :=
  libevdev_has_event_type d EV_ABS &&
  libevdev_has_event_code d EV_ABS ABS_X &&
  libevdev_has_event_code d EV_ABS ABS_Y &&
  libevdev_has_event_code d EV_ABS ABS_RX &&
  libevdev_has_event_code d EV_ABS ABS_RY &&
  libevdev_has_event_code d EV_KEY BTN_A.

(** The [for] loop from index [i] with [n] indices left. *)
Fixpoint scan (ns : namespace) (n : nat) (i : nat) : option (nat * evdev) * list effect :=
  match n with
  | O => (None, [])
  | S n' =>
      match ns i with
      | Unopenable => (None, [Open i])                       (* [break] *)
      | NotEvdev =>                                          (* [goto close_fd] *)
          let '(r, t) := scan ns n' (S i) in (r, Open i :: Close i :: t)
      | Device d =>
          if is_gamepad d then (Some (i, d), [Open i])       (* [return dev] *)
          else let '(r, t) := scan ns n' (S i) in
               (r, Open i :: Free i :: Close i :: t)
      end
  end.

Definition find_gamepad (ns : namespace) : option (nat * evdev) * list effect :=
  scan ns 32 0.

(** ** Orchestrator: the outer [for] loop of [main] *)

(** Where control is between two blocking calls. *)
Inductive phase :=
| SEARCHING                               (* about to call [find_gamepad] *)
| ACTIVE (gamepad : nat) (st : session)   (* in the session loop, at [poll] *)
| WAIT_HOTPLUG                            (* in the hot-plug loop, at [poll] *)
| TERMINATED                              (* past [outer:], resources released *)
| FAILED                                  (* left through [err] *)
| UNDEFINED.

(** What the environment answers at the next blocking call. *)
Inductive stimulus :=
| Scanned (ns : namespace) (now : Z)
    (* the device files [find_gamepad] sees, and [get_time] after it *)
| Polled (now : Z) (p : poll_result) (rc : Z) (ev : event)
    (* the session's [poll], [get_time] and [libevdev_next_event] *)
| Notified (p : poll_result) (errno : Z).
    (* the hot-plug [poll], and the [errno] of the [read] that ends the drain *)

Section Orchestrator.
Variable pow : double -> double -> double.

(** After the session loop: [libevdev_free], [close], then either leave
    the outer loop or fall through to [wait_hotplug:]. *)
Definition end_session (gamepad : nat) (quit : bool) : phase * list effect :=
  if quit
  then (TERMINATED, [Free gamepad; Close gamepad; CloseInotify; DestroyUinput])
  else (WAIT_HOTPLUG, [Free gamepad; Close gamepad]).

Definition step (ph : phase) (s : stimulus) : option (phase * list effect) :=
  match ph, s with
  | SEARCHING, Scanned ns now =>
      match find_gamepad ns with
      | (Some (i, _), t) => Some (ACTIVE i (init_session now), t)
      | (None, t) => Some (WAIT_HOTPLUG, t)
      end
  | ACTIVE g st, Polled now p rc ev =>
      match iteration pow st now p rc ev with
      | Continue st' out => Some (ACTIVE g st', map Write out)
      | Quit => Some (end_session g true)
      | Disconnected => Some (end_session g false)
      | Fatal => Some (FAILED, [])
      | Undefined => Some (UNDEFINED, [])
      end
  | WAIT_HOTPLUG, Notified p errno =>
      if poll_rc p <? 0 then Some (FAILED, [])
      else if negb (signal_revents p =? 0)
      then Some (TERMINATED, [CloseInotify; DestroyUinput])   (* [goto outer] *)
      else if negb (watch_revents p =? 0)
      then if errno =? EAGAIN then Some (SEARCHING, [])       (* drained *)
           else Some (FAILED, [])
      else Some (WAIT_HOTPLUG, [])
  | _, _ => None
  end.

(** Running the program from a phase through a list of stimuli. *)
Fixpoint run (ph : phase) (ss : list stimulus) : option (list phase * list effect) :=
  match ss with
  | [] => Some ([], [])
  | s :: rest =>
      match step ph s with
      | Some (ph', t) =>
          match run ph' rest with
          | Some (phs, t') => Some (ph' :: phs, t ++ t')
          | None => None
          end
      | None => None
      end
  end.
End Orchestrator.

(** ** Vocabulary of the statements *)

(** The trigger latch fed a sequence of readings: the flag after each
    reading, and all the writes. *)
Fixpoint latch_run (key : Z) (z : bool) (vs : list Z) : list bool * list event :=
  match vs with
  | [] => ([], [])
  | v :: rest =>
      let '(z1, out1) := trigger_latch key v z in
      let '(zs, out2) := latch_run key z1 rest in
      (z1 :: zs, out1 ++ out2)
  end.

(** An event on one of the two wheel axes. *)
Definition is_wheel_event (e : event) : bool :=
  (ev_type e =? EV_REL) &&
  ((ev_code e =? REL_WHEEL_HI_RES) || (ev_code e =? REL_HWHEEL_HI_RES)).

(** The capability test of [find_gamepad], on a device file. *)
Definition qualifies (n : node) : bool :=
  match n with
  | Device d => is_gamepad d
  | _ => false
  end.

Definition openable (n : node) : bool :=
  match n with
  | Unopenable => false
  | _ => true
  end.

(** What [find_gamepad] does to a candidate it opens and passes over. *)
Definition skipped (ns : namespace) (j : nat) : list effect :=
  match ns j with
  | Unopenable => [Open j]
  | NotEvdev => [Open j; Close j]
  | Device _ => [Open j; Free j; Close j]
  end.

(** The input events of one directional-pad axis taking the given values
    in turn. *)
Definition hat_inputs (code : Z) (values : list Z) : list event :=
  map (Event EV_ABS code) values.

(** ** Concrete inputs used to run the model *)

(** A pad: two sticks and the reference button. *)
Definition pad : evdev :=
  {| dev_types := [EV_KEY; EV_ABS];
     dev_codes := [(EV_ABS, ABS_X); (EV_ABS, ABS_Y); (EV_ABS, ABS_RX);
                   (EV_ABS, ABS_RY); (EV_KEY, BTN_A)] |}.

(** A keyboard-like device: keys only. *)
Definition keys_only : evdev :=
  {| dev_types := [EV_KEY]; dev_codes := [(EV_KEY, KEY_A)] |}.

(** Five device files of which only the fourth is a pad. *)
Definition five_files : namespace :=
  fun i =>
    match i with
    | 0%nat => Device keys_only
    | 1%nat => NotEvdev
    | 2%nat => Device keys_only
    | 3%nat => Device pad
    | 4%nat => Device keys_only
    | _ => Unopenable
    end.

(** A pad at [event1] behind a file that cannot be opened. *)
Definition pad_behind_gap : namespace :=
  fun i =>
    match i with
    | 1%nat => Device pad
    | _ => Unopenable
    end.

(** One of the two parameterisations the program uses. *)
Definition stick (P : accel) : Prop := P = lparams \/ P = rparams.

(** A session with both sticks pushed: the scroll stick equally far on
    both axes. *)
Definition both_sticks : session :=
  {| lx := 20000; ly := 0; rx := 30000; ry := -30000;
     slx := 0; sly := 0; srx := 0; sry := 0;
     hat0x := 0; hat0y := 0; lz := false; rz := false; last_time := 0 |}.

(** The scroll stick pushed further sideways than up. *)
Definition scroll_sideways : session :=
  {| lx := 0; ly := 0; rx := 30000; ry := -12000;
     slx := 0; sly := 0; srx := 0; sry := 0;
     hat0x := 0; hat0y := 0; lz := false; rz := false; last_time := 0 |}.


(** ** Vocabulary of the rounding argument *)

(** The integer nearest to [M / 2^k], ties to even. *)
Definition rne (k M : Z) : Z :=
  let q := M / 2 ^ k in
  let r := M mod 2 ^ k in
  match 2 * r ?= 2 ^ k with
  | Lt => q
  | Eq => if Z.even q then q else q + 1
  | Gt => q + 1
  end.

(** Where [M / 2^k] lies between two consecutive integers. *)
Definition location_of (k M : Z) : location :=
  let r := M mod 2 ^ k in
  if r =? 0 then loc_Exact else loc_Inexact (2 * r ?= 2 ^ k).

(** What [k] right shifts of [M] have computed. *)
Definition shifted (M k : Z) (mrs : shr_record) : Prop :=
  shr_m mrs = M / 2 ^ k /\ loc_of_shr_record mrs = location_of k M.

(** A valid double classified as positive normal. *)
Definition normal_positive (p : double) : bool :=
  valid_binary prec emax p &&
  match SFclassify prec p with
  | PNormal => true
  | _ => false
  end.

(** How [double_mul] rounds and where the result overflows, in terms of
    the exact product [X] scaled by [2^(-L)] to an integer: [k] bits are
    dropped, the 53 kept are [m1], the exponent is [c]. *)
Definition rounded_exponent (m1 c : Z) : Z := if m1 <? 2 ^ 53 then c else c + 1.
Definition rounded_mantissa (m1 : Z) : Z := if m1 <? 2 ^ 53 then m1 else 2 ^ 52.

Definition rounded (m1 c : Z) : double :=
  if rounded_exponent m1 c <=? emax - prec
  then S754_finite false (Z.to_pos (rounded_mantissa m1)) (rounded_exponent m1 c)
  else S754_infinity false.


(** ** The clock: [get_time] *)

(** [ts.tv_sec * 1'000'000'000ll + ts.tv_nsec] for the [timespec] that
    [clock_gettime] stored; the product and the sum are 64-bit. *)
Definition get_time (tv_sec tv_nsec : Z) : Z :=
  int64 (int64 (tv_sec * 1000000000) + tv_nsec).

(** ** The virtual device: [create_virtual_device] *)

(** [libevdev_new]: a device that declares nothing. *)
Definition libevdev_new : evdev := {| dev_types := []; dev_codes := [] |}.

Definition libevdev_enable_event_type (d : evdev) (type : Z) : evdev :=
  {| dev_types := type :: dev_types d; dev_codes := dev_codes d |}.

(** libevdev enables the type along with the code. *)
Definition libevdev_enable_event_code (d : evdev) (type code : Z) : evdev :=
  {| dev_types := type :: dev_types d; dev_codes := (type, code) :: dev_codes d |}.

(** The device description handed to
    [libevdev_uinput_create_from_device], built by the calls of
    [create_virtual_device] in their order. *)
Definition virtual_device : evdev :=
  let dev := libevdev_new in
  let dev := libevdev_enable_event_type dev EV_REL in
  let dev := libevdev_enable_event_code dev EV_REL REL_X in
  let dev := libevdev_enable_event_code dev EV_REL REL_Y in
  let dev := libevdev_enable_event_code dev EV_REL REL_WHEEL_HI_RES in
  let dev := libevdev_enable_event_code dev EV_REL REL_HWHEEL_HI_RES in
  let dev := libevdev_enable_event_type dev EV_KEY in
  let dev := libevdev_enable_event_code dev EV_KEY BTN_LEFT in
  let dev := libevdev_enable_event_code dev EV_KEY BTN_RIGHT in
  let dev := libevdev_enable_event_code dev EV_KEY BTN_SIDE in
  let dev := libevdev_enable_event_code dev EV_KEY BTN_EXTRA in
  let dev := libevdev_enable_event_code dev EV_KEY KEY_TAB in
  let dev := libevdev_enable_event_code dev EV_KEY KEY_A in
  let dev := libevdev_enable_event_code dev EV_KEY KEY_LEFTMETA in
  let dev := libevdev_enable_event_code dev EV_KEY KEY_LEFTSHIFT in
  let dev := libevdev_enable_event_code dev EV_KEY KEY_LEFTCTRL in
  let dev := libevdev_enable_event_code dev EV_KEY KEY_LEFTALT in
  let dev := libevdev_enable_event_code dev EV_KEY KEY_ENTER in
  let dev := libevdev_enable_event_code dev EV_KEY KEY_LEFT in
  let dev := libevdev_enable_event_code dev EV_KEY KEY_RIGHT in
  let dev := libevdev_enable_event_code dev EV_KEY KEY_UP in
  let dev := libevdev_enable_event_code dev EV_KEY KEY_DOWN in
  dev.

(** [create_virtual_device], given what
    [libevdev_uinput_create_from_device] returns: the device, or [nullptr]
    with [errno] set to [-rc]. *)
Definition create_virtual_device (rc : Z) : evdev + Z :=
  if rc <? 0 then inr (- rc) else inl virtual_device.

(** The set-up of [main] before the outer loop, given the results of
    [signalfd], [create_virtual_device], [inotify_init1] and
    [inotify_add_watch]: each failure leaves through [err]. *)
Definition startup (signal_fd : Z) (uinput : evdev + Z) (ino_fd watch : Z) : phase :=
  if signal_fd <? 0 then FAILED
  else match uinput with
       | inr _ => FAILED
       | inl _ =>
           if ino_fd <? 0 then FAILED
           else if watch <? 0 then FAILED
           else SEARCHING
       end.

(** ** More vocabulary *)

(** An event the virtual device [d] was created to carry: a batch marker,
    or an event whose type and code [d] declares. *)
Definition declared (d : evdev) (e : event) : bool :=
  is_syn_report e || libevdev_has_event_code d (ev_type e) (ev_code e).

(** A pointer or wheel motion event. *)
Definition is_rel_event (e : event) : bool := ev_type e =? EV_REL.

(** The write log ends at a batch boundary: nothing follows the last
    marker. *)
Definition at_batch_boundary (out : list event) : Prop :=
  snd (batches_aux [] out) = [].

Definition is_destroy (x : effect) : bool :=
  match x with
  | DestroyUinput => true
  | _ => false
  end.

Definition is_write (x : effect) : bool :=
  match x with
  | Write _ => true
  | _ => false
  end.

(** A phase the program does not leave. *)
Definition final (ph : phase) : bool :=
  match ph with
  | TERMINATED | FAILED | UNDEFINED => true
  | _ => false
  end.

(** Some device file with the capability signature can be reached by the
    scan: every file before it opens. *)
Definition reachable_gamepad (ns : namespace) (i : nat) : Prop :=
  (i < 32)%nat /\ qualifies (ns i) = true /\
  forall j, (j < i)%nat -> openable (ns j) = true.

(** Input events that are not button events. *)
Definition not_key_input (e : event) : bool := negb (ev_type e =? EV_KEY).

(** The state a pass works on once the clock has been read. *)
Definition clocked (st : session) (now : Z) : session :=
  {| lx := lx st; ly := ly st; rx := rx st; ry := ry st;
     slx := slx st; sly := sly st; srx := srx st; sry := sry st;
     hat0x := hat0x st; hat0y := hat0y st; lz := lz st; rz := rz st;
     last_time := now |}.

(** Empty, or ending in a marker. *)
Definition closed_log (out : list event) : Prop :=
  out = [] \/ exists pre, out = pre ++ [syn_report].

(** No write of [out] is a key event for [k]. *)
Definition leaves_key (k : Z) (out : list event) : Prop :=
  forallb (fun e => negb (is_key_event e && (ev_code e =? k))) out = true.

(** Neither the inotify descriptor nor the sink is released in [t]. *)
Definition calm (t : list effect) : Prop :=
  ~ In DestroyUinput t /\ ~ In CloseInotify t.

(** The session state with other stored deltas. *)
Definition with_deltas (st : session) (a b c d : Z) : session :=
  {| lx := lx st; ly := ly st; rx := rx st; ry := ry st;
     slx := a; sly := b; srx := c; sry := d;
     hat0x := hat0x st; hat0y := hat0y st; lz := lz st; rz := rz st;
     last_time := last_time st |}.

(** * Properties *)

(** ** EdgeKeyMapper *)

(** Whatever the previous and the new value of a directional axis, the two
    keys of the axis are never down together, provided at most the key of
    the previous sign was down before. *)
Lemma hat_axis_exclusive (neg pos hat value : Z) :
  neg <> pos ->
  let d1 := hat <? 0 in
  let d2 := 0 <? hat in
  let '(hat', out) := hat_axis neg pos hat value in
  never_both_down neg pos d1 d2 out = true /\
  key_down neg d1 out = (hat' <? 0) /\
  key_down pos d2 out = (0 <? hat').
Proof.
  intros Hne. unfold hat_axis. cbn zeta.
  assert (Hnp : (neg =? pos) = false) by (apply Z.eqb_neq; exact Hne).
  assert (Hpn : (pos =? neg) = false) by (apply Z.eqb_neq; congruence).
  destruct (Z.ltb_spec hat 0) as [Hh|Hh];
    destruct (Z.ltb_spec 0 hat) as [Hh'|Hh']; try lia;
    destruct (Z.eqb_spec hat 0) as [Hz|Hz]; try lia;
    destruct (Z.eqb_spec hat value) as [Hv|Hv];
    destruct (Z.eqb_spec value 0) as [Hw|Hw]; try lia;
    destruct (Z.ltb_spec value 0) as [Hs|Hs];
    destruct (Z.ltb_spec 0 value) as [Hs'|Hs']; try lia;
    cbn; rewrite ?Z.eqb_refl, ?Hnp, ?Hpn; cbn; auto.
Qed.

(** C3 (as the code has it): on either directional-pad axis the values
    [0, -1, +1, 0] write down(negKey); up(negKey); down(posKey);
    up(posKey), every key event followed by its own batch-boundary marker
    (four batches of one key event each, so the up and the down of the
    direct negative-to-positive transition are two consecutive batches),
    and no prefix of the writes leaves both keys of the axis down. *)
Theorem edge_key_mapper_sequence (now : Z) :
  let run code := snd (handle_events (init_session now) (hat_inputs code [0; -1; 1; 0])) in
  let expected neg pos :=
    [key_event neg 1; syn_report;
     key_event neg 0; syn_report;
     key_event pos 1; syn_report;
     key_event pos 0; syn_report] in
  (run ABS_HAT0X = expected KEY_LEFT KEY_RIGHT /\
   batches (run ABS_HAT0X) =
     [[key_event KEY_LEFT 1]; [key_event KEY_LEFT 0];
      [key_event KEY_RIGHT 1]; [key_event KEY_RIGHT 0]] /\
   never_both_down KEY_LEFT KEY_RIGHT false false (run ABS_HAT0X) = true) /\
  (run ABS_HAT0Y = expected KEY_UP KEY_DOWN /\
   batches (run ABS_HAT0Y) =
     [[key_event KEY_UP 1]; [key_event KEY_UP 0];
      [key_event KEY_DOWN 1]; [key_event KEY_DOWN 0]] /\
   never_both_down KEY_UP KEY_DOWN false false (run ABS_HAT0Y) = true).
Proof.
  cbv zeta. repeat split; reflexivity.
Qed.

(** The direct negative-to-positive transition is not one batch: the
    key-up and the key-down are each closed by a marker of their own, so
    the writes for [0, -1, +1, 0] are not the three-batch log in which the
    pair shares a marker. *)
Lemma edge_key_mapper_two_batches :
  let out := snd (handle_events (init_session 0) (hat_inputs ABS_HAT0X [0; -1; 1; 0])) in
  let step := snd (hat_axis KEY_LEFT KEY_RIGHT (-1) 1) in
  out <> [key_event KEY_LEFT 1; syn_report;
          key_event KEY_LEFT 0; key_event KEY_RIGHT 1; syn_report;
          key_event KEY_RIGHT 0; syn_report] /\
  step = [key_event KEY_LEFT 0; syn_report; key_event KEY_RIGHT 1; syn_report] /\
  batches step = [[key_event KEY_LEFT 0]; [key_event KEY_RIGHT 1]] /\
  count_syn step = 2%nat.
Proof.
  cbv zeta. repeat split; try reflexivity. discriminate.
Qed.

(** ** HysteresisLatch *)

Lemma trigger_latch_cases (key value : Z) (z : bool) :
  trigger_latch key value z =
    if z then
      if value <? z_up_threshold
      then (false, [key_event key 0; syn_report]) else (true, [])
    else
      if value >? z_down_threshold
      then (true, [key_event key 1; syn_report]) else (false, []).
Proof.
  unfold trigger_latch, z_up_threshold, z_down_threshold.
  destruct z; cbn.
  - rewrite andb_false_r. cbn. rewrite andb_true_r.
    destruct (value <? 256); reflexivity.
  - rewrite andb_true_r.
    destruct (Z.gtb_spec value 512) as [H|H]; cbn.
    + rewrite andb_true_r.
      destruct (Z.ltb_spec value 256); [lia | reflexivity].
    + rewrite andb_false_r. reflexivity.
Qed.

Lemma latch_run_held (key : Z) (vs : list Z) :
  Forall (fun v => z_up_threshold <= v) vs ->
  latch_run key true vs = (repeat true (length vs), []).
Proof.
  induction 1 as [|v vs Hv _ IH]; cbn [latch_run]; [reflexivity|].
  rewrite trigger_latch_cases.
  destruct (Z.ltb_spec v z_up_threshold); [lia|].
  rewrite IH. reflexivity.
Qed.

Lemma latch_run_released (key : Z) (vs : list Z) :
  Forall (fun v => v <= z_down_threshold) vs ->
  latch_run key false vs = (repeat false (length vs), []).
Proof.
  induction 1 as [|v vs Hv _ IH]; cbn [latch_run]; [reflexivity|].
  rewrite trigger_latch_cases.
  destruct (Z.gtb_spec v z_down_threshold); [lia|].
  rewrite IH. reflexivity.
Qed.

(** C5: the trigger latch.  (1) From released, readings that never exceed
    the press threshold leave the flag released after every reading and
    write nothing.  (2) Once pressed, readings between the release and the
    press threshold, bounds included, leave the flag pressed after every
    reading and write nothing.  (3) A pressed flag is released exactly by a reading below the
    release threshold, which is strictly lower than the press threshold.
    (4) Every change of the flag writes exactly one key event for the
    mapped key, key-down for pressed and key-up for released, followed by
    one batch marker; no change writes nothing.  (5) [ABS_Z] drives
    [KEY_LEFTCTRL] with the flag [lz] and [ABS_RZ] drives [KEY_LEFTSHIFT]
    with the flag [rz]; a session starts with both flags released. *)
Theorem hysteresis_latch (key : Z) :
  (forall vs, Forall (fun v => v <= z_down_threshold) vs ->
     latch_run key false vs = (repeat false (length vs), [])) /\
  (forall vs, Forall (fun v => z_up_threshold <= v <= z_down_threshold) vs ->
     latch_run key true vs = (repeat true (length vs), [])) /\
  (z_up_threshold < z_down_threshold /\
   forall v, fst (trigger_latch key v true) = false <-> v < z_up_threshold) /\
  (forall v z,
     let '(z', out) := trigger_latch key v z in
     (z' <> z -> out = [key_event key (if z' then 1 else 0); syn_report]) /\
     (z' = z -> out = [])) /\
  (forall st v now,
     lz (fst (handle_event st (Event EV_ABS ABS_Z v))) =
       fst (trigger_latch KEY_LEFTCTRL v (lz st)) /\
     snd (handle_event st (Event EV_ABS ABS_Z v)) =
       snd (trigger_latch KEY_LEFTCTRL v (lz st)) /\
     rz (fst (handle_event st (Event EV_ABS ABS_RZ v))) =
       fst (trigger_latch KEY_LEFTSHIFT v (rz st)) /\
     snd (handle_event st (Event EV_ABS ABS_RZ v)) =
       snd (trigger_latch KEY_LEFTSHIFT v (rz st)) /\
     lz (init_session now) = false /\ rz (init_session now) = false).
Proof.
  split; [exact (latch_run_released key)|].
  split.
  { intros vs Hvs. apply latch_run_held.
    eapply Forall_impl; [|exact Hvs]. cbn. intros v Hv. lia. }
  split.
  { split; [reflexivity|]. intros v. rewrite trigger_latch_cases.
    destruct (Z.ltb_spec v z_up_threshold); cbn; split; intros; try lia; congruence. }
  split.
  { intros v z. rewrite trigger_latch_cases.
    destruct z.
    - destruct (v <? z_up_threshold); split; intros; congruence.
    - destruct (v >? z_down_threshold); split; intros; congruence. }
  intros st v now.
  unfold handle_event, on_abs. cbn.
  destruct (trigger_latch KEY_LEFTCTRL v (lz st)) as [z1 o1].
  destruct (trigger_latch KEY_LEFTSHIFT v (rz st)) as [z2 o2].
  cbn. repeat split; reflexivity.
Qed.

Lemma hysteresis_latch_witness :
  latch_run KEY_LEFTCTRL false [0; 300; 512; 17] = (repeat false 4, []) /\
  latch_run KEY_LEFTCTRL true [256; 400; 512] = (repeat true 3, []) /\
  (fst (trigger_latch KEY_LEFTCTRL 255 true) = false) /\
  snd (trigger_latch KEY_LEFTCTRL 513 false) = [key_event KEY_LEFTCTRL 1; syn_report].
Proof.
  pose proof (hysteresis_latch KEY_LEFTCTRL) as (H1 & H2 & [_ H3] & H4 & _).
  split.
  { apply (H1 [0; 300; 512; 17]).
    repeat constructor; unfold z_down_threshold; lia. }
  split.
  { apply (H2 [256; 400; 512]).
    repeat constructor; unfold z_up_threshold, z_down_threshold; lia. }
  split.
  { apply (H3 255). unfold z_up_threshold. lia. }
  specialize (H4 513 false).
  destruct (trigger_latch KEY_LEFTCTRL 513 false) as [z' out] eqn:E.
  vm_compute in E. injection E as <- <-. reflexivity.
Defined.

(** ** ButtonRouter *)

Lemma button_writes_codes (code v w : Z) :
  map ev_code (button_writes code v) = map ev_code (button_writes code w).
Proof.
  unfold button_writes.
  repeat match goal with
         | |- context [if ?c then _ else _] => destruct c; [reflexivity|]
         end.
  reflexivity.
Qed.

Lemma button_writes_shape (code v : Z) :
  button_writes code v =
    map (fun k => key_event k v) (map ev_code (button_writes code 0)).
Proof.
  unfold button_writes.
  repeat match goal with
         | |- context [if ?c then _ else _] => destruct c; [reflexivity|]
         end.
  reflexivity.
Qed.

(** C6: a button whose case writes two key codes [k1], [k2] (these are
    exactly [BTN_START] and [BTN_TL]) writes, for one input event of value
    [v], the key event of [k1] with [v], the key event of [k2] with [v],
    and then exactly one batch marker; the session state is untouched. *)
Theorem button_router_chord (st : session) (code k1 k2 v : Z) :
  map ev_code (button_writes code 0) = [k1; k2] ->
  handle_event st (Event EV_KEY code v) =
    (st, [key_event k1 v; key_event k2 v; syn_report]) /\
  count_syn (snd (handle_event st (Event EV_KEY code v))) = 1%nat /\
  (code = BTN_START /\ k1 = KEY_LEFTMETA /\ k2 = KEY_A \/
   code = BTN_TL /\ k1 = KEY_LEFTSHIFT /\ k2 = KEY_TAB).
Proof.
  intros H.
  assert (Hout : handle_event st (Event EV_KEY code v) =
                 (st, [key_event k1 v; key_event k2 v; syn_report])).
  { unfold handle_event, on_key. cbn.
    rewrite (button_writes_shape code v), H. reflexivity. }
  split; [exact Hout|]. split; [rewrite Hout; reflexivity|].
  revert H. unfold button_writes.
  repeat match goal with
         | |- context [if ?a =? ?b then _ else _] =>
             destruct (Z.eqb_spec a b) as [->|_]
         end; cbn; intros H; try discriminate H;
    injection H as <- <-; auto.
Qed.

Lemma button_router_chord_witness :
  handle_event (init_session 0) (Event EV_KEY BTN_START 1) =
    (init_session 0, [key_event KEY_LEFTMETA 1; key_event KEY_A 1; syn_report]) /\
  handle_event (init_session 0) (Event EV_KEY BTN_TL 0) =
    (init_session 0, [key_event KEY_LEFTSHIFT 0; key_event KEY_TAB 0; syn_report]).
Proof.
  split.
  - apply (button_router_chord (init_session 0) BTN_START KEY_LEFTMETA KEY_A 1).
    reflexivity.
  - apply (button_router_chord (init_session 0) BTN_TL KEY_LEFTSHIFT KEY_TAB 0).
    reflexivity.
Defined.

(** C9: every [EV_KEY] input event writes exactly one batch marker, the
    last write of the event, and leaves the session state as it was; when
    the code has no case in the switch, the marker is all that is written
    (an empty batch). *)
Theorem key_event_one_marker (st : session) (code v : Z) :
  let '(st', out) := handle_event st (Event EV_KEY code v) in
  st' = st /\
  count_syn out = 1%nat /\
  out = button_writes code v ++ [syn_report] /\
  forallb is_key_event (button_writes code v) = true /\
  (~ In code [BTN_SOUTH; BTN_EAST; BTN_SELECT; BTN_START; BTN_TR; BTN_TL;
              BTN_DPAD_UP; BTN_DPAD_DOWN; BTN_DPAD_LEFT; BTN_DPAD_RIGHT;
              BTN_WEST; BTN_NORTH; BTN_THUMBL; BTN_THUMBR] ->
   out = [syn_report] /\ batches out = [[]]).
Proof.
  unfold handle_event, on_key. cbn.
  split; [reflexivity|].
  assert (Hk : forallb is_key_event (button_writes code v) = true).
  { rewrite button_writes_shape.
    induction (map ev_code (button_writes code 0)); cbn; auto. }
  split.
  { unfold count_syn. rewrite filter_app. cbn.
    assert (Hf : filter is_syn_report (button_writes code v) = []).
    { revert Hk. induction (button_writes code v) as [|e l IH]; cbn; [reflexivity|].
      intros Hk. apply andb_prop in Hk as [He Hl].
      unfold is_key_event in He. apply Z.eqb_eq in He.
      unfold is_syn_report, event_eqb. rewrite He. cbn. auto. }
    rewrite Hf. reflexivity. }
  split; [reflexivity|]. split; [exact Hk|].
  intros Hn.
  assert (Hw : button_writes code v = []).
  { unfold button_writes.
    repeat match goal with
           | |- context [if ?a =? ?b then _ else _] =>
               destruct (Z.eqb_spec a b) as [Heq|_];
               [exfalso; apply Hn; rewrite Heq; cbn; tauto|]
           end.
    reflexivity. }
  rewrite Hw. split; reflexivity.
Qed.

Lemma key_event_one_marker_witness :
  handle_event (init_session 0) (Event EV_KEY 999 1) = (init_session 0, [syn_report]).
Proof.
  pose proof (key_event_one_marker (init_session 0) 999 1) as H.
  destruct (handle_event (init_session 0) (Event EV_KEY 999 1)) as [st' out].
  destruct H as (-> & _ & _ & _ & H).
  destruct H as [-> _]; [|reflexivity].
  cbn. intros H.
  repeat (destruct H as [H|H]; [discriminate H|]). exact H.
Defined.

(** ** DeviceLocator *)

(** The loop passes over every candidate that opens and does not qualify. *)
Lemma scan_skips (ns : namespace) (k n i : nat) :
  (forall j, (i <= j < i + k)%nat -> openable (ns j) = true /\ qualifies (ns j) = false) ->
  scan ns (k + n) i =
    (fst (scan ns n (i + k)),
     flat_map (skipped ns) (seq i k) ++ snd (scan ns n (i + k))).
Proof.
  revert i. induction k as [|k IH]; intros i H.
  - cbn. rewrite Nat.add_0_r. destruct (scan ns n i); reflexivity.
  - assert (Hi : openable (ns i) = true /\ qualifies (ns i) = false) by (apply H; lia).
    assert (IH' := IH (S i)).
    replace (i + S k)%nat with (S i + k)%nat by lia.
    cbn [Nat.add scan seq flat_map]. unfold skipped at 1.
    destruct (ns i) as [| |d]; cbn in Hi; destruct Hi as [Ho Hq]; try discriminate.
    + rewrite IH' by (intros; apply H; lia).
      reflexivity.
    + rewrite Hq. rewrite IH' by (intros; apply H; lia).
      reflexivity.
Qed.

(** C2 (as the code has it): [find_gamepad] tries [event0] to [event31] in
    order.  (1) If [event<i>], [i < 32], is a device with the capability
    signature and every lower-numbered file opens without carrying the
    signature, [find_gamepad] returns that device; each lower-numbered file
    was opened and closed (and its libevdev handle freed when it had one),
    in order, and [event<i>] is left open.  (2) The first file that fails
    to open ends the scan: if every file below [event<k>], [k < 32], opens
    without carrying the signature and [event<k>] does not open, nothing is
    found, whatever the files above [k] are. *)
Theorem find_gamepad_first_match (ns : namespace) (i : nat) :
  (i < 32)%nat ->
  (forall j, (j < i)%nat -> openable (ns j) = true /\ qualifies (ns j) = false) ->
  (forall d, ns i = Device d -> is_gamepad d = true ->
     find_gamepad ns =
       (Some (i, d), flat_map (skipped ns) (seq 0 i) ++ [Open i])) /\
  (ns i = Unopenable ->
     find_gamepad ns = (None, flat_map (skipped ns) (seq 0 i) ++ [Open i])).
Proof.
  intros Hi Hlow. unfold find_gamepad.
  replace 32%nat with (i + S (31 - i))%nat by lia.
  rewrite scan_skips by (intros; apply Hlow; lia).
  cbn [Nat.add scan]. split.
  - intros d Hd Hg. rewrite Hd, Hg. reflexivity.
  - intros Hu. rewrite Hu. reflexivity.
Qed.

Lemma find_gamepad_first_match_witness :
  find_gamepad five_files =
    (Some (3%nat, pad),
     [Open 0; Free 0; Close 0; Open 1; Close 1; Open 2; Free 2; Close 2; Open 3]) /\
  find_gamepad (fun i => match i with 2%nat => Unopenable | _ => five_files i end) =
    (None, [Open 0; Free 0; Close 0; Open 1; Close 1; Open 2]).
Proof.
  split.
  - refine (proj1 (find_gamepad_first_match five_files 3 _ _) pad _ _);
      [lia | | reflexivity | reflexivity].
    intros [|[|[|j]]] Hj; try lia; split; reflexivity.
  - refine (proj2 (find_gamepad_first_match _ 2 _ _) _); [lia | | reflexivity].
    intros [|[|j]] Hj; try lia; split; reflexivity.
Defined.

(** A file that does not open is not skipped: it hides the pad behind it. *)
Lemma find_gamepad_stops_at_unopenable :
  qualifies (pad_behind_gap 1%nat) = true /\
  openable (pad_behind_gap 0%nat) = false /\
  find_gamepad pad_behind_gap = (None, [Open 0]).
Proof.
  repeat split.
Qed.

(** ** Orchestrator *)

Lemma iteration_disconnected pow (st : session) (now : Z) (p : poll_result)
      (rc : Z) (ev : event) :
  iteration pow st now p rc ev = Disconnected <->
  0 <= poll_rc p /\ signal_revents p = 0 /\ watch_revents p <> 0 /\ rc = - ENODEV.
Proof.
  unfold iteration.
  destruct (Z.ltb_spec (poll_rc p) 0) as [Hp|Hp].
  { split; [discriminate | lia]. }
  destruct (Z.eqb_spec (signal_revents p) 0) as [Hs|Hs]; cbn [negb].
  2:{ split; [discriminate | tauto]. }
  destruct (Z.eqb_spec (watch_revents p) 0) as [Hw|Hw]; cbn [negb].
  { destruct (recompute pow _ _) as [[st2 out2]|];
      (split; [discriminate | tauto]). }
  destruct (Z.ltb_spec rc 0) as [Hr|Hr].
  - destruct (Z.eqb_spec rc (- ENODEV)) as [He|He].
    + tauto.
    + split; [discriminate | tauto].
  - destruct (handle_event _ ev) as [st1 out1].
    destruct (recompute pow st1 _) as [[st2 out2]|];
      (split; [discriminate | unfold ENODEV; lia]).
Qed.

(** C1 (as the code has it): a session ends with outcome DISCONNECTED
    exactly when [poll] succeeded, no termination signal is pending, the
    device descriptor fired and the read returned [-ENODEV].  The device is
    then released (its libevdev handle freed, its descriptor closed),
    nothing is written to the sink, and the next phase is WAIT_HOTPLUG;
    SEARCHING is entered from there only when the inotify descriptor fires
    and its queue has been drained. *)
Theorem disconnect_then_wait_hotplug pow (g : nat) (st : session) (now : Z)
        (p : poll_result) (rc : Z) (ev : event) :
  iteration pow st now p rc ev = Disconnected ->
  step pow (ACTIVE g st) (Polled now p rc ev) = Some (WAIT_HOTPLUG, [Free g; Close g]) /\
  (forall p' errno t,
     step pow WAIT_HOTPLUG (Notified p' errno) = Some (SEARCHING, t) ->
     watch_revents p' <> 0 /\ signal_revents p' = 0 /\ errno = EAGAIN /\ t = []) /\
  (forall p',
     0 <= poll_rc p' -> signal_revents p' = 0 -> watch_revents p' <> 0 ->
     step pow WAIT_HOTPLUG (Notified p' EAGAIN) = Some (SEARCHING, [])).
Proof.
  intros H. split; [cbn; rewrite H; reflexivity|]. split.
  - intros p' errno t. cbn.
    destruct (poll_rc p' <? 0); [discriminate|].
    destruct (Z.eqb_spec (signal_revents p') 0) as [Hs|Hs]; cbn [negb]; [|discriminate].
    destruct (Z.eqb_spec (watch_revents p') 0) as [Hw|Hw]; cbn [negb]; [discriminate|].
    destruct (Z.eqb_spec errno EAGAIN) as [He|He]; [|discriminate].
    intros E. injection E as <-. auto.
  - intros p' Hp Hs Hw. cbn.
    destruct (Z.ltb_spec (poll_rc p') 0); [lia|].
    rewrite Hs. cbn.
    destruct (Z.eqb_spec (watch_revents p') 0); [contradiction | reflexivity].
Qed.

Lemma disconnect_then_wait_hotplug_witness :
  step pow_iter (ACTIVE 3 (init_session 0)) (Polled 1000 (Poll 1 0 1) (- ENODEV) syn_report)
  = Some (WAIT_HOTPLUG, [Free 3%nat; Close 3%nat]).
Proof.
  apply (disconnect_then_wait_hotplug pow_iter 3 (init_session 0) 1000
           (Poll 1 0 1) (- ENODEV) syn_report).
  reflexivity.
Defined.

(** After a disconnect the program does not search again at once. *)
Lemma disconnect_next_phase_not_searching :
  let next := step pow_iter (ACTIVE 3 (init_session 0))
                   (Polled 1000 (Poll 1 0 1) (- ENODEV) syn_report) in
  iteration pow_iter (init_session 0) 1000 (Poll 1 0 1) (- ENODEV) syn_report = Disconnected /\
  option_map fst next = Some WAIT_HOTPLUG /\
  option_map fst next <> Some SEARCHING.
Proof.
  cbv zeta. repeat split. discriminate.
Qed.

(** Unplugging the pad, plugging it back in at [event3]: the session ends,
    the program waits for the notification, scans and starts a new
    session with fresh state. *)
Example replug_run :
  run pow_iter (ACTIVE 3 (init_session 0))
      [Polled 1000 (Poll 1 0 1) (- ENODEV) syn_report;
       Notified (Poll 1 0 1) EAGAIN;
       Scanned five_files 2000] =
  Some ([WAIT_HOTPLUG; SEARCHING; ACTIVE 3 (init_session 2000)],
        [Free 3; Close 3;
         Open 0; Free 0; Close 0; Open 1; Close 1; Open 2; Free 2; Close 2;
         Open 3]%nat).
Proof.
  reflexivity.
Qed.

(** ** Fixed-width arithmetic *)

Lemma wrap_small (w x : Z) :
  0 < w -> - 2 ^ (w - 1) <= x < 2 ^ (w - 1) -> wrap w x = x.
Proof.
  intros Hw Hx. unfold wrap.
  replace (2 ^ w) with (2 * 2 ^ (w - 1)).
  - rewrite Z.mod_small; lia.
  - rewrite <- Z.pow_succ_r by lia. f_equal. lia.
Qed.

Lemma int64_small (x : Z) : INT64_MIN <= x <= INT64_MAX -> int64 x = x.
Proof.
  unfold INT64_MIN, INT64_MAX. intros H.
  apply wrap_small; [lia | change (64 - 1) with 63; lia].
Qed.

Lemma int32_small (x : Z) : - 2 ^ 31 <= x < 2 ^ 31 -> int32 x = x.
Proof.
  intros H. apply wrap_small; [lia | change (32 - 1) with 31; lia].
Qed.

Lemma int64_range (x : Z) : INT64_MIN <= int64 x <= INT64_MAX.
Proof.
  unfold int64, wrap, INT64_MIN, INT64_MAX. change (64 - 1) with 63.
  pose proof (Z.mod_pos_bound (x + 2 ^ 63) (2 ^ 64) ltac:(lia)). lia.
Qed.

(** Negation commutes with the 64-bit wrap-around except at the one value
    that has no negation. *)
Lemma int64_opp (x : Z) : int64 x <> INT64_MIN -> int64 (- x) = - int64 x.
Proof.
  unfold int64, wrap, INT64_MIN. change (64 - 1) with 63. intros H.
  pose proof (Z.div_mod (x + 2 ^ 63) (2 ^ 64) ltac:(lia)) as Hdm.
  pose proof (Z.mod_pos_bound (x + 2 ^ 63) (2 ^ 64) ltac:(lia)) as Hb.
  set (q := (x + 2 ^ 63) / 2 ^ 64) in *.
  set (r := (x + 2 ^ 63) mod 2 ^ 64) in *.
  assert (Hr : (- x + 2 ^ 63) mod 2 ^ 64 = 2 ^ 64 - r).
  { symmetry. apply Z.mod_unique with (q := - q); lia. }
  rewrite Hr. lia.
Qed.

Lemma int64_wraps_to_min_opp (x : Z) :
  int64 x = INT64_MIN -> int64 (- x) = INT64_MIN.
Proof.
  unfold int64, wrap, INT64_MIN. change (64 - 1) with 63. intros H.
  pose proof (Z.div_mod (x + 2 ^ 63) (2 ^ 64) ltac:(lia)) as Hdm.
  set (q := (x + 2 ^ 63) / 2 ^ 64) in *.
  set (r := (x + 2 ^ 63) mod 2 ^ 64) in *.
  assert (Hr : (- x + 2 ^ 63) mod 2 ^ 64 = 0).
  { symmetry. apply Z.mod_unique with (q := 1 - q); lia. }
  rewrite Hr. lia.
Qed.

Lemma quot_bound (x d b : Z) :
  0 < d -> Z.abs x <= b * d -> Z.abs (Z.quot x d) <= b.
Proof.
  intros Hd Hx.
  rewrite <- Z.quot_abs by lia.
  rewrite (Z.abs_eq d) by lia.
  rewrite Z.quot_div_nonneg by lia.
  apply Z.div_le_upper_bound; lia.
Qed.

(** ** AxisAccelerator *)

Lemma stick_consts (P : accel) :
  stick P -> div1 P = 2 ^ 9 /\ sub P = 2 ^ 13 /\ div2 P = 2 ^ 36 /\ 1 <= mul P <= 2.
Proof.
  intros [-> | ->]; cbn; lia.
Qed.

(** Past the 64-bit product nothing wraps: the quotient is below 2^27 in
    magnitude, the multiplier is 1 or 2, so the delta fits an [int]. *)
Lemma axis_delta_value pow (P : accel) (v interval a : Z) :
  stick P ->
  scaled pow P v = Some a ->
  axis_delta pow P v interval =
    Some (Z.quot (int64 (a * interval)) (2 ^ 36) * mul P) /\
  Z.abs (Z.quot (int64 (a * interval)) (2 ^ 36) * mul P) <= 2 ^ 28.
Proof.
  intros HP Ha. destruct (stick_consts P HP) as (_ & _ & Hd & Hm).
  unfold axis_delta. rewrite Ha, Hd.
  pose proof (int64_range (a * interval)) as Hr.
  unfold INT64_MIN, INT64_MAX in Hr.
  assert (Hq : Z.abs (Z.quot (int64 (a * interval)) (2 ^ 36)) <= 2 ^ 27).
  { apply quot_bound; lia. }
  set (c := Z.quot (int64 (a * interval)) (2 ^ 36)) in *.
  assert (Hc : Z.abs (c * mul P) <= 2 ^ 28).
  { rewrite Z.abs_mul. rewrite (Z.abs_eq (mul P)) by lia. nia. }
  split; [|exact Hc].
  rewrite int64_small by (unfold INT64_MIN, INT64_MAX; lia).
  rewrite int32_small by lia. reflexivity.
Qed.

Lemma axis_delta_bound pow (P : accel) (v interval d : Z) :
  stick P -> axis_delta pow P v interval = Some d -> Z.abs d <= 2 ^ 28.
Proof.
  intros HP H. destruct (scaled pow P v) as [a|] eqn:Ha.
  - destruct (axis_delta_value pow P v interval a HP Ha) as [E B].
    rewrite E in H. injection H as <-. exact B.
  - unfold axis_delta in H. rewrite Ha in H. discriminate.
Qed.

(** ** Scroll-axis exclusivity *)

Lemma wheel_events_of_pointer (dx dy : Z) :
  filter is_wheel_event (emit_pointer dx dy) = [].
Proof.
  unfold emit_pointer. destruct (_ || _); reflexivity.
Qed.

Lemma emit_scroll_cases (dx dy : Z) :
  Z.abs dx <= 2 ^ 28 -> Z.abs dy <= 2 ^ 28 ->
  emit_scroll dx dy =
    if (dx =? 0) && (dy =? 0) then []
    else if Z.abs dx >? Z.abs dy
         then [rel_event REL_HWHEEL_HI_RES (- dx); syn_report]
         else [rel_event REL_WHEEL_HI_RES dy; syn_report].
Proof.
  intros Hx Hy. unfold emit_scroll, c_abs.
  rewrite !int32_small by lia.
  destruct (dx =? 0), (dy =? 0); cbn [negb orb andb]; try reflexivity;
    destruct (Z.abs dx >? Z.abs dy); reflexivity.
Qed.

Lemma recompute_wheel pow (st st' : session) (interval : Z) (out : list event) :
  recompute pow st interval = Some (st', out) ->
  axis_delta pow rparams (rx st) interval = Some (srx st') /\
  axis_delta pow rparams (ry st) interval = Some (sry st') /\
  Z.abs (srx st') <= 2 ^ 28 /\ Z.abs (sry st') <= 2 ^ 28 /\
  filter is_wheel_event out = filter is_wheel_event (emit_scroll (srx st') (sry st')).
Proof.
  unfold recompute.
  destruct (axis_delta pow lparams (lx st) interval) as [dlx|]; [|discriminate].
  destruct (axis_delta pow lparams (ly st) interval) as [dly|]; [|discriminate].
  destruct (axis_delta pow rparams (rx st) interval) as [drx|] eqn:Ex; [|discriminate].
  destruct (axis_delta pow rparams (ry st) interval) as [dry|] eqn:Ey; [|discriminate].
  intros H. injection H as <- <-. cbn [srx sry].
  repeat split; try (eapply axis_delta_bound; [right; reflexivity | eassumption]).
  rewrite filter_app, wheel_events_of_pointer. reflexivity.
Qed.

Lemma hat_axis_no_wheel (neg pos hat value : Z) :
  filter is_wheel_event (snd (hat_axis neg pos hat value)) = [].
Proof.
  unfold hat_axis. cbn [snd]. rewrite filter_app.
  destruct (negb (hat =? 0) && negb (hat =? value)), (negb (value =? 0)); reflexivity.
Qed.

Lemma trigger_latch_no_wheel (key value : Z) (z : bool) :
  filter is_wheel_event (snd (trigger_latch key value z)) = [].
Proof.
  rewrite trigger_latch_cases.
  destruct z; [destruct (value <? z_up_threshold) | destruct (value >? z_down_threshold)];
    reflexivity.
Qed.

(** An input event writes key events and markers only. *)
Lemma handle_event_no_wheel (st : session) (ev : event) :
  filter is_wheel_event (snd (handle_event st ev)) = [].
Proof.
  unfold handle_event.
  destruct (ev_type ev =? EV_ABS).
  - unfold on_abs.
    pose proof (hat_axis_no_wheel KEY_LEFT KEY_RIGHT (hat0x st) (ev_value ev)) as Hx.
    pose proof (hat_axis_no_wheel KEY_UP KEY_DOWN (hat0y st) (ev_value ev)) as Hy.
    pose proof (trigger_latch_no_wheel KEY_LEFTCTRL (ev_value ev) (lz st)) as Hl.
    pose proof (trigger_latch_no_wheel KEY_LEFTSHIFT (ev_value ev) (rz st)) as Hr.
    destruct (hat_axis KEY_LEFT KEY_RIGHT _ _), (hat_axis KEY_UP KEY_DOWN _ _),
      (trigger_latch KEY_LEFTCTRL _ _), (trigger_latch KEY_LEFTSHIFT _ _).
    repeat match goal with
           | |- context [if ?c then _ else _] => destruct c; [assumption || reflexivity|]
           end.
    reflexivity.
  - destruct (ev_type ev =? EV_KEY); [|reflexivity].
    cbn [snd]. unfold on_key. rewrite filter_app, button_writes_shape.
    induction (map ev_code (button_writes (ev_code ev) 0)); cbn; auto.
Qed.

(** The wheel events of a pass that goes on are those of its tail, and
    the tail works on the deltas it has just stored. *)
Lemma iteration_wheel pow (st st' : session) (now : Z) (p : poll_result)
      (rc : Z) (ev : event) (out : list event) :
  iteration pow st now p rc ev = Continue st' out ->
  Z.abs (srx st') <= 2 ^ 28 /\ Z.abs (sry st') <= 2 ^ 28 /\
  filter is_wheel_event out = filter is_wheel_event (emit_scroll (srx st') (sry st')).
Proof.
  unfold iteration.
  destruct (poll_rc p <? 0); [discriminate|].
  destruct (negb (signal_revents p =? 0)); [discriminate|].
  match goal with
  | |- context [handle_event ?s ev] =>
      pose proof (handle_event_no_wheel s ev) as Hev;
      destruct (handle_event s ev) as [st1 out1]
  end.
  cbn [snd] in Hev.
  destruct (negb (watch_revents p =? 0)).
  - destruct (rc <? 0).
    + destruct (rc =? - ENODEV); discriminate.
    + destruct (recompute pow st1 _) as [[st2 out2]|] eqn:E; [|discriminate].
      intros H. injection H as <- <-.
      destruct (recompute_wheel pow _ _ _ _ E) as (_ & _ & Bx & By & Hw).
      rewrite filter_app, Hev, Hw. auto.
  - destruct (recompute pow _ _) as [[st2 out2]|] eqn:E; [|discriminate].
    intros H. injection H as <- <-.
    destruct (recompute_wheel pow _ _ _ _ E) as (_ & _ & Bx & By & Hw).
    rewrite Hw. auto.
Qed.

(** C4: in every pass of the session loop in which at least one of the two
    recomputed scroll deltas is non-zero, exactly one wheel-axis event is
    written: on the horizontal wheel when the magnitude of the horizontal
    delta strictly exceeds that of the vertical one, on the vertical wheel
    otherwise (so equal magnitudes go to the vertical wheel); the other
    axis writes nothing in that pass. *)
Theorem scroll_axis_exclusive pow (st st' : session) (now : Z) (p : poll_result)
        (rc : Z) (ev : event) (out : list event) :
  iteration pow st now p rc ev = Continue st' out ->
  srx st' <> 0 \/ sry st' <> 0 ->
  exists value,
    filter is_wheel_event out =
      [rel_event (if Z.abs (srx st') >? Z.abs (sry st')
                  then REL_HWHEEL_HI_RES else REL_WHEEL_HI_RES) value].
Proof.
  intros H Hnz.
  destruct (iteration_wheel pow st st' now p rc ev out H) as (Bx & By & ->).
  rewrite emit_scroll_cases by assumption.
  destruct (Z.eqb_spec (srx st') 0) as [Hx|Hx];
    destruct (Z.eqb_spec (sry st') 0) as [Hy|Hy]; cbn [andb]; try tauto;
    destruct (Z.abs (srx st') >? Z.abs (sry st')); eexists; reflexivity.
Qed.

Lemma scroll_axis_exclusive_witness :
  exists st' out value,
    iteration pow_iter both_sticks 20000000 (Poll 0 0 0) 0 syn_report = Continue st' out /\
    srx st' = 26 /\ sry st' = -26 /\
    filter is_wheel_event out = [rel_event REL_WHEEL_HI_RES value].
Proof.
  destruct (iteration pow_iter both_sticks 20000000 (Poll 0 0 0) 0 syn_report)
    as [st' out| | | |] eqn:E; try (vm_compute in E; discriminate E).
  assert (Hs : srx st' = 26 /\ sry st' = -26).
  { vm_compute in E. injection E as <- <-. split; reflexivity. }
  destruct Hs as [Hx Hy].
  destruct (scroll_axis_exclusive pow_iter both_sticks st' 20000000 (Poll 0 0 0) 0
              syn_report out E) as [value Hv].
  { left. rewrite Hx. discriminate. }
  exists st', out, value.
  rewrite Hx, Hy in Hv.
  repeat split; assumption.
Defined.

(** C10: when the horizontal axis wins, the horizontal-wheel event carries
    the negated horizontal delta; when the vertical axis wins, the
    vertical-wheel event carries the vertical delta as computed. *)
Theorem scroll_sign pow (st st' : session) (now : Z) (p : poll_result)
        (rc : Z) (ev : event) (out : list event) :
  iteration pow st now p rc ev = Continue st' out ->
  (Z.abs (srx st') > Z.abs (sry st') ->
   filter is_wheel_event out = [rel_event REL_HWHEEL_HI_RES (- srx st')]) /\
  (Z.abs (srx st') <= Z.abs (sry st') -> sry st' <> 0 ->
   filter is_wheel_event out = [rel_event REL_WHEEL_HI_RES (sry st')]).
Proof.
  intros H.
  destruct (iteration_wheel pow st st' now p rc ev out H) as (Bx & By & ->).
  rewrite emit_scroll_cases by assumption.
  split.
  - intros Hgt.
    destruct (Z.eqb_spec (srx st') 0) as [Hx|Hx]; [lia|]. cbn [andb].
    destruct (Z.gtb_spec (Z.abs (srx st')) (Z.abs (sry st'))); [reflexivity | lia].
  - intros Hle Hy.
    destruct (Z.eqb_spec (sry st') 0) as [Hy'|_]; [contradiction|].
    rewrite andb_false_r.
    destruct (Z.gtb_spec (Z.abs (srx st')) (Z.abs (sry st'))); [lia | reflexivity].
Qed.

Lemma scroll_sign_witness :
  exists st' out,
    iteration pow_iter scroll_sideways 20000000 (Poll 0 0 0) 0 syn_report = Continue st' out /\
    srx st' = 26 /\
    filter is_wheel_event out = [rel_event REL_HWHEEL_HI_RES (-26)].
Proof.
  destruct (iteration pow_iter scroll_sideways 20000000 (Poll 0 0 0) 0 syn_report)
    as [st' out| | | |] eqn:E; try (vm_compute in E; discriminate E).
  pose proof (scroll_sign pow_iter scroll_sideways st' 20000000 (Poll 0 0 0) 0
                syn_report out E) as [Hh _].
  assert (Hs : srx st' = 26 /\ sry st' = -6).
  { vm_compute in E. injection E as <- <-. split; reflexivity. }
  destruct Hs as [Hx Hy]. rewrite Hx, Hy in Hh.
  exists st', out. repeat split; try assumption.
  apply Hh. reflexivity.
Defined.

(** ** Sign symmetry of the floating-point steps *)

Lemma binary_round_aux_opp (s : bool) (m e : Z) (l : location) :
  binary_round_aux prec emax (negb s) m e l =
  SFopp (binary_round_aux prec emax s m e l).
Proof.
  unfold binary_round_aux.
  destruct (shr_fexp prec emax m e l) as [mrs e1].
  destruct (shr_fexp prec emax _ e1 loc_Exact) as [mrs' e2].
  destruct (shr_m mrs'); try reflexivity.
  destruct (e2 <=? emax - prec); reflexivity.
Qed.

Lemma double_mul_opp_r (x y : double) :
  double_mul x (SFopp y) = SFopp (double_mul x y).
Proof.
  unfold double_mul.
  destruct x as [sx|sx| |sx mx ex], y as [sy|sy| |sy my ey]; cbn;
    try reflexivity;
    try (destruct sx, sy; reflexivity).
  replace (xorb sx (negb sy)) with (negb (xorb sx sy)) by (destruct sx, sy; reflexivity).
  apply binary_round_aux_opp.
Qed.

Lemma double_of_int_opp (v : Z) :
  v <> 0 -> double_of_int (- v) = SFopp (double_of_int v).
Proof.
  unfold double_of_int, binary_normalize, binary_round.
  destruct v as [|p|p]; intros H; [contradiction| |]; cbn [Z.opp];
    destruct (shl_align _ _ _) as [mz ez].
  - apply (binary_round_aux_opp false).
  - rewrite (binary_round_aux_opp false). 
    destruct (binary_round_aux prec emax false (Z.pos mz) ez loc_Exact) as [[]|[]| |[] ? ?];
      reflexivity.
Qed.

Lemma double_trunc_opp (f : double) (a : Z) :
  double_trunc f = Some a -> double_trunc (SFopp f) = Some (- a).
Proof.
  destruct f as [s|s| |s m e]; cbn; try discriminate.
  - intros H. injection H as <-. reflexivity.
  - intros H. injection H as <-. destruct s; cbn [negb]; f_equal; lia.
Qed.

Lemma int64_of_double_opp (f : double) (a : Z) :
  int64_of_double f = Some a -> INT64_MIN < a ->
  int64_of_double (SFopp f) = Some (- a).
Proof.
  unfold int64_of_double.
  destruct (double_trunc f) as [z|] eqn:E; [|discriminate].
  rewrite (double_trunc_opp f z E).
  destruct (Z.leb_spec INT64_MIN z) as [Hlo|Hlo]; cbn [andb]; [|discriminate].
  destruct (Z.leb_spec z INT64_MAX) as [Hhi|Hhi]; [|discriminate].
  intros H Hm. injection H as <-.
  unfold INT64_MIN, INT64_MAX in *.
  destruct (Z.leb_spec (- 2 ^ 63) (- z)) as [Hlo'|Hlo']; [|lia].
  destruct (Z.leb_spec (- z) (2 ^ 63 - 1)) as [Hhi'|Hhi']; [|lia].
  reflexivity.
Qed.

Lemma exponent_opp (P : accel) (v : Z) : exponent P (- v) = exponent P v.
Proof.
  unfold exponent, c_abs. rewrite Z.abs_opp. reflexivity.
Qed.

(** The scaled stick value is odd wherever its negation is an [int64_t]. *)
Lemma scaled_opp pow (P : accel) (v a : Z) :
  scaled pow P v = Some a -> INT64_MIN < a ->
  scaled pow P (- v) = Some (- a).
Proof.
  intros H Ha.
  destruct (Z.eq_dec v 0) as [->|Hv].
  - cbn [Z.opp]. rewrite H. f_equal.
    revert H. unfold scaled, int64_of_double, double_of_int at 2. cbn [binary_normalize].
    destruct (pow _ _) as [s|s| |s m e]; cbn; try discriminate;
      intros H; injection H as <-; reflexivity.
  - unfold scaled in *. rewrite exponent_opp.
    rewrite (double_of_int_opp v Hv), double_mul_opp_r.
    apply int64_of_double_opp; assumption.
Qed.

(** C7 (as the code has it): for each of the two sticks, for every raw
    value [v] whose scaled value [a] is an [int64_t] other than [INT64_MIN],
    and every elapsed time [dt] for which the 64-bit product of [a] and
    [dt] does not wrap around to [INT64_MIN],
    AxisAccelerator(-v, dt) = - AxisAccelerator(v, dt).  The scaled value
    and the product are the only places where the sign matters: [pow] sees
    the magnitude of [v] only, and the IEEE product, the truncating
    conversion and the truncating division are all odd. *)
Theorem axis_accelerator_odd pow (P : accel) (v dt a : Z) :
  stick P ->
  scaled pow P v = Some a ->
  INT64_MIN < a ->
  int64 (a * dt) <> INT64_MIN ->
  exists d,
    axis_delta pow P v dt = Some d /\
    axis_delta pow P (- v) dt = Some (- d).
Proof.
  intros HP Ha Hmin Hprod.
  destruct (axis_delta_value pow P v dt a HP Ha) as [E _].
  pose proof (scaled_opp pow P v a Ha Hmin) as Ha'.
  destruct (axis_delta_value pow P (- v) dt (- a) HP Ha') as [E' _].
  eexists. split; [exact E|]. rewrite E'. f_equal.
  rewrite Z.mul_opp_l, int64_opp by exact Hprod.
  rewrite Z.quot_opp_l by lia. lia.
Qed.

Lemma axis_accelerator_odd_witness :
  axis_delta pow_iter lparams 32767 20000000 = Some 15 /\
  axis_delta pow_iter lparams (-32767) 20000000 = Some (-15) /\
  axis_delta pow_iter rparams 32767 20000000 = Some 30 /\
  axis_delta pow_iter rparams (-32767) 20000000 = Some (-30).
Proof.
  destruct (axis_accelerator_odd pow_iter lparams 32767 20000000 52304)
    as (d & Hd & Hd'); [left; reflexivity | vm_compute; reflexivity
                        | reflexivity | vm_compute; discriminate |].
  destruct (axis_accelerator_odd pow_iter rparams 32767 20000000 52304)
    as (d2 & Hd2 & Hd2'); [right; reflexivity | vm_compute; reflexivity
                        | reflexivity | vm_compute; discriminate |].
  assert (d = 15) as -> by (vm_compute in Hd; congruence).
  assert (d2 = 30) as -> by (vm_compute in Hd2; congruence).
  repeat split; assumption.
Defined.

(** At the dead-zone edge, after 2^50 ns, the 64-bit product of the scaled
    value 8192 and the elapsed time is 2^63: it wraps to [INT64_MIN], and
    so does the product for -8192.  Both signs give the same negative
    delta. *)
Lemma axis_accelerator_not_odd_at_wrap :
  scaled pow_iter lparams 8192 = Some 8192 /\
  axis_delta pow_iter lparams 8192 (2 ^ 50) = Some (- 2 ^ 27) /\
  axis_delta pow_iter lparams (- 8192) (2 ^ 50) = Some (- 2 ^ 27) /\
  axis_delta pow_iter lparams (- 8192) (2 ^ 50) <>
    option_map Z.opp (axis_delta pow_iter lparams 8192 (2 ^ 50)).
Proof.
  repeat split; try (vm_compute; reflexivity).
  vm_compute. discriminate.
Qed.

(** The condition on the product cannot be dropped: whenever the product
    does wrap around to [INT64_MIN], both signs give the same non-zero
    delta. *)
Lemma axis_delta_at_wrap pow (P : accel) (v dt a : Z) :
  stick P ->
  scaled pow P v = Some a ->
  INT64_MIN < a ->
  int64 (a * dt) = INT64_MIN ->
  axis_delta pow P v dt = Some (- 2 ^ 27 * mul P) /\
  axis_delta pow P (- v) dt = Some (- 2 ^ 27 * mul P).
Proof.
  intros HP Ha Hmin Hprod.
  destruct (axis_delta_value pow P v dt a HP Ha) as [E _].
  pose proof (scaled_opp pow P v a Ha Hmin) as Ha'.
  destruct (axis_delta_value pow P (- v) dt (- a) HP Ha') as [E' _].
  rewrite E, E', (Z.mul_opp_l a dt), (int64_wraps_to_min_opp _ Hprod), Hprod.
  split; reflexivity.
Qed.

(** ** Rounding to nearest, ties to even *)

Lemma digits2_pos_log2 (p : positive) :
  Z.pos (digits2_pos p) = Z.log2 (Z.pos p) + 1.
Proof.
  induction p as [p IH|p IH|]; cbn [digits2_pos]; [| |reflexivity].
  - rewrite Pos2Z.inj_succ, IH.
    change (Z.pos p~1) with (Z.succ_double (Z.pos p)).
    rewrite Z.succ_double_spec, Z.log2_succ_double by lia. lia.
  - rewrite Pos2Z.inj_succ, IH.
    change (Z.pos p~0) with (Z.double (Z.pos p)).
    rewrite Z.double_spec, Z.log2_double by lia. lia.
Qed.

Lemma shr_1_nonneg (m : Z) (r s : bool) :
  0 <= m ->
  shr_1 {| shr_m := m; shr_r := r; shr_s := s |} =
  {| shr_m := m / 2; shr_r := Z.odd m; shr_s := r || s |}.
Proof.
  intros Hm. destruct m as [|p|p]; [reflexivity | | lia].
  destruct p as [p|p|]; cbn [shr_1].
  - f_equal. change (Z.pos p~1) with (Z.succ_double (Z.pos p)).
    rewrite Z.succ_double_spec.
    apply Z.div_unique with (r := 1); lia.
  - f_equal. change (Z.pos p~0) with (Z.double (Z.pos p)).
    rewrite Z.double_spec.
    apply Z.div_unique with (r := 0); lia.
  - reflexivity.
Qed.

Lemma shifted_step (M k : Z) (mrs : shr_record) :
  0 <= M -> 0 <= k -> shifted M k mrs -> shifted M (k + 1) (shr_1 mrs).
Proof.
  intros HM Hk [Hm Hl]. destruct mrs as [m r s]. cbn [shr_m] in Hm.
  assert (Hp : 0 < 2 ^ k) by (apply Z.pow_pos_nonneg; lia).
  assert (Hm0 : 0 <= m) by (rewrite Hm; apply Z.div_pos; lia).
  rewrite shr_1_nonneg by exact Hm0.
  assert (Hrem : M mod 2 ^ (k + 1) = M mod 2 ^ k + 2 ^ k * (m mod 2)).
  { rewrite Z.pow_add_r, Z.pow_1_r by lia.
    rewrite Z.rem_mul_r by lia. rewrite <- Hm. reflexivity. }
  assert (Hrs : r || s = negb (M mod 2 ^ k =? 0)).
  { unfold location_of in Hl. cbn zeta in Hl.
    destruct (M mod 2 ^ k =? 0); destruct r, s; cbn in Hl |- *;
      try reflexivity; discriminate Hl. }
  pose proof (Z.mod_pos_bound M (2 ^ k) Hp) as Hb.
  split.
  - cbn [shr_m]. rewrite Hm, Z.pow_add_r, Z.pow_1_r by lia.
    rewrite Z.div_div by lia. reflexivity.
  - unfold location_of. cbn zeta. rewrite Hrem.
    rewrite (Z.pow_add_r 2 k 1), Z.pow_1_r by lia.
    rewrite Hrs. rewrite Zodd_mod.
    pose proof (Z.mod_pos_bound m 2 ltac:(lia)) as Hb2.
    destruct (Z.eqb_spec (M mod 2 ^ k) 0) as [Hz|Hz];
      destruct (Z.eqb_spec (m mod 2) 1) as [Ho|Ho]; cbn [negb loc_of_shr_record].
    + rewrite Hz, Ho. destruct (Z.eqb_spec (0 + 2 ^ k * 1) 0); [lia|].
      f_equal. symmetry. apply Z.compare_eq_iff. lia.
    + assert (m mod 2 = 0) as -> by lia. rewrite Hz.
      destruct (Z.eqb_spec (0 + 2 ^ k * 0) 0); [reflexivity | lia].
    + rewrite Ho. destruct (Z.eqb_spec (M mod 2 ^ k + 2 ^ k * 1) 0); [lia|].
      f_equal. symmetry. apply Z.compare_gt_iff. lia.
    + assert (m mod 2 = 0) as -> by lia.
      destruct (Z.eqb_spec (M mod 2 ^ k + 2 ^ k * 0) 0); [lia|].
      f_equal. symmetry. apply Z.compare_lt_iff. lia.
Qed.

Lemma shifted_iter (M : Z) (p : positive) :
  0 <= M ->
  forall k mrs, 0 <= k -> shifted M k mrs ->
    shifted M (k + Z.pos p) (iter_pos shr_1 p mrs).
Proof.
  intros HM. induction p as [p IH|p IH|]; intros k mrs Hk H; cbn [iter_pos].
  - replace (k + Z.pos p~1) with (k + 1 + Z.pos p + Z.pos p) by lia.
    apply IH; [lia|]. apply IH; [lia|]. apply shifted_step; assumption.
  - replace (k + Z.pos p~0) with (k + Z.pos p + Z.pos p) by lia.
    apply IH; [lia|]. apply IH; assumption.
  - apply shifted_step; assumption.
Qed.

Lemma round_nearest_even_rne (k M : Z) :
  0 <= k ->
  round_nearest_even (M / 2 ^ k) (location_of k M) = rne k M.
Proof.
  intros Hk. unfold location_of, rne. cbn zeta.
  assert (Hp : 0 < 2 ^ k) by (apply Z.pow_pos_nonneg; lia).
  destruct (Z.eqb_spec (M mod 2 ^ k) 0) as [Hz|Hz].
  - rewrite Hz. cbn [round_nearest_even].
    assert ((2 * 0 ?= 2 ^ k) = Lt) as -> by (apply Z.compare_lt_iff; lia).
    reflexivity.
  - cbn [round_nearest_even].
    destruct (2 * (M mod 2 ^ k) ?= 2 ^ k); reflexivity.
Qed.

(** The first shift of [binary_round_aux], followed by the rounding. *)
Lemma shr_rne (M : Z) (e n : Z) :
  0 <= M -> 0 < n ->
  let '(mrs, e') := shr {| shr_m := M; shr_r := false; shr_s := false |} e n in
  round_nearest_even (shr_m mrs) (loc_of_shr_record mrs) = rne n M /\ e' = e + n.
Proof.
  intros HM Hn. destruct n as [|p|p]; try lia. cbn [shr].
  destruct (shifted_iter M p HM 0 {| shr_m := M; shr_r := false; shr_s := false |})
    as [Hm Hl]; [lia | |].
  { split; cbn.
    - rewrite Z.div_1_r. reflexivity.
    - unfold location_of. cbn. rewrite Z.mod_1_r. reflexivity. }
  cbn [Z.add] in Hm, Hl. rewrite Hm, Hl. split; [|reflexivity].
  apply round_nearest_even_rne. lia.
Qed.

Lemma rne_bounds (k M : Z) : M / 2 ^ k <= rne k M <= M / 2 ^ k + 1.
Proof.
  unfold rne. cbn zeta.
  destruct (2 * (M mod 2 ^ k) ?= 2 ^ k); [destruct (Z.even _)| |]; lia.
Qed.

Lemma rne_scale (k j M : Z) :
  0 <= k -> 0 <= j -> rne (k + j) (M * 2 ^ j) = rne k M.
Proof.
  intros Hk Hj. unfold rne. cbn zeta.
  assert (Hpk : 0 < 2 ^ k) by (apply Z.pow_pos_nonneg; lia).
  assert (Hpj : 0 < 2 ^ j) by (apply Z.pow_pos_nonneg; lia).
  rewrite Z.pow_add_r by lia.
  rewrite Z.div_mul_cancel_r by lia.
  rewrite Z.mul_mod_distr_r by lia.
  replace (2 * (M mod 2 ^ k * 2 ^ j)) with (2 * (M mod 2 ^ k) * 2 ^ j) by ring.
  rewrite <- Zmult_compare_compat_r by lia.
  reflexivity.
Qed.

Lemma rne_mono (k M1 M2 : Z) :
  0 <= k -> M1 <= M2 -> rne k M1 <= rne k M2.
Proof.
  intros Hk HM.
  assert (Hp : 0 < 2 ^ k) by (apply Z.pow_pos_nonneg; lia).
  pose proof (Z.div_le_mono M1 M2 (2 ^ k) Hp HM) as Hq.
  pose proof (rne_bounds k M1) as B1. pose proof (rne_bounds k M2) as B2.
  destruct (Z.eq_dec (M1 / 2 ^ k) (M2 / 2 ^ k)) as [Heq|Hne]; [|lia].
  pose proof (Z.div_mod M1 (2 ^ k) ltac:(lia)) as D1.
  pose proof (Z.div_mod M2 (2 ^ k) ltac:(lia)) as D2.
  assert (Hr : M1 mod 2 ^ k <= M2 mod 2 ^ k) by (rewrite Heq in D1; nia).
  unfold rne. cbn zeta. rewrite Heq.
  destruct (Z.compare_spec (2 * (M1 mod 2 ^ k)) (2 ^ k));
    destruct (Z.compare_spec (2 * (M2 mod 2 ^ k)) (2 ^ k));
    try destruct (Z.even _); lia.
Qed.


Lemma Zdigits2_log2 (m : Z) : 0 < m -> Zdigits2 m = Z.log2 m + 1.
Proof.
  destruct m as [|p|p]; try lia. intros _. apply digits2_pos_log2.
Qed.

Lemma log2_53 (m : Z) : 2 ^ 52 <= m < 2 ^ 53 -> Z.log2 m = 52.
Proof.
  intros H. apply Z.log2_unique; [lia|]. exact H.
Qed.

(** The mantissa left by the first shift has exactly 53 bits. *)
Lemma shifted_mantissa_bounds (M n : Z) :
  0 < M -> 0 <= n -> Z.log2 M = n + 52 ->
  2 ^ 52 <= M / 2 ^ n < 2 ^ 53.
Proof.
  intros HM Hn Hl.
  destruct (Z.log2_spec M HM) as [Lo Hi].
  rewrite Hl in Lo, Hi.
  replace (Z.succ (n + 52)) with (n + 53) in Hi by lia.
  rewrite Z.pow_add_r in Lo, Hi by lia.
  assert (Hp : 0 < 2 ^ n) by (apply Z.pow_pos_nonneg; lia).
  split.
  - apply Z.div_le_lower_bound; lia.
  - apply Z.div_lt_upper_bound; lia.
Qed.

(** [binary_round_aux] on a positive mantissa of more than 53 bits whose
    rounded exponent is not below [emin]: the mantissa is shifted to 53
    bits and rounded to nearest even; a carry to 2^53 is renormalised. *)
Lemma binary_round_aux_normal (M : positive) (E : Z) :
  let n := Z.log2 (Z.pos M) + 1 - prec in
  let c := E + n in
  let m1 := rne n (Z.pos M) in
  0 < n -> emin prec emax <= c ->
  2 ^ 52 <= m1 <= 2 ^ 53 /\
  binary_round_aux prec emax false (Z.pos M) E loc_Exact =
    (let e := if m1 <? 2 ^ 53 then c else c + 1 in
     let m := if m1 <? 2 ^ 53 then m1 else 2 ^ 52 in
     if e <=? emax - prec then S754_finite false (Z.to_pos m) e
     else S754_infinity false).
Proof.
  intros n c m1 Hn Hc.
  assert (Hq : 2 ^ 52 <= Z.pos M / 2 ^ n < 2 ^ 53).
  { apply shifted_mantissa_bounds; [lia | lia | unfold n, prec; lia]. }
  assert (Hm1 : 2 ^ 52 <= m1 <= 2 ^ 53).
  { pose proof (rne_bounds n (Z.pos M)). unfold m1. lia. }
  split; [exact Hm1|].
  unfold binary_round_aux, shr_fexp.
  cbn [Zdigits2 shr_record_of_loc]. rewrite digits2_pos_log2.
  assert (Hf : fexp prec emax (Z.log2 (Z.pos M) + 1 + E) - E = n).
  { unfold fexp. unfold c, n in *. lia. }
  rewrite Hf.
  pose proof (shr_rne (Z.pos M) E n ltac:(lia) Hn) as Hs.
  destruct (shr _ E n) as [mrs e']. destruct Hs as [Hr ->].
  rewrite Hr. fold m1. fold c.
  destruct (Z.ltb_spec m1 (2 ^ 53)) as [Hlt|Hge].
  - rewrite Zdigits2_log2 by lia. rewrite log2_53 by lia.
    assert (Hf2 : fexp prec emax (52 + 1 + c) - c = 0).
    { unfold fexp, prec in *. lia. }
    rewrite Hf2. cbn [shr shr_m].
    destruct m1 as [|p|p]; try lia. reflexivity.
  - assert (Hm : m1 = 2 ^ 53) by lia. rewrite Hm.
    assert (Hf2 : fexp prec emax (Zdigits2 (2 ^ 53) + c) - c = 1).
    { change (Zdigits2 (2 ^ 53)) with 54. unfold fexp, prec in *. lia. }
    rewrite Hf2. reflexivity.
Qed.


(** ** Conversion of an integer to a double *)

Lemma pos_iter_xO (p d : positive) :
  Z.pos (Pos.iter xO p d) = Z.pos p * 2 ^ Z.pos d.
Proof.
  induction d as [|d IH] using Pos.peano_ind.
  - cbn [Pos.iter]. lia.
  - rewrite Pos.iter_succ, Pos2Z.inj_succ, Z.pow_succ_r by lia.
    change (Z.pos (Pos.iter xO p d)~0) with (2 * Z.pos (Pos.iter xO p d)).
    rewrite IH. ring.
Qed.

(** A positive integer below 2^53 converts exactly, to a mantissa of 53
    bits. *)
Lemma double_of_int_pos (u : Z) :
  0 < u < 2 ^ 53 ->
  exists m e,
    double_of_int u = S754_finite false m e /\
    Z.pos m = u * 2 ^ (- e) /\ -52 <= e <= 0 /\ Z.log2 (Z.pos m) = 52.
Proof.
  intros Hu. destruct u as [|pu|pu]; try lia.
  assert (Hl : 0 <= Z.log2 (Z.pos pu) <= 52).
  { split; [apply Z.log2_nonneg|].
    assert (Z.log2 (Z.pos pu) < 53); [|lia].
    apply Z.log2_lt_pow2; lia. }
  set (e := Z.log2 (Z.pos pu) - 52).
  assert (Hmz : exists mz, shl_align pu 0 (fexp prec emax (Z.pos (digits2_pos pu) + 0)) = (mz, e)
                           /\ Z.pos mz = Z.pos pu * 2 ^ (- e)).
  { rewrite digits2_pos_log2. unfold shl_align.
    assert (Hf : fexp prec emax (Z.log2 (Z.pos pu) + 1 + 0) - 0 = e).
    { unfold fexp, prec, emin, emax, e. lia. }
    rewrite Hf. destruct e as [|pe|pe] eqn:He; try lia.
    - exists pu. split; [reflexivity | cbn; lia].
    - exists (Pos.iter xO pu pe). split.
      + f_equal. unfold fexp, prec, emin, emax. lia.
      + rewrite pos_iter_xO. reflexivity. }
  destruct Hmz as (mz & Hal & Hmz).
  assert (Hlog : Z.log2 (Z.pos mz) = 52).
  { rewrite Hmz, Z.log2_mul_pow2 by lia. unfold e. lia. }
  exists mz, e. repeat split; try assumption; try (unfold e; lia).
  unfold double_of_int, binary_normalize, binary_round. rewrite Hal.
  unfold binary_round_aux, shr_fexp.
  cbn [Zdigits2 shr_record_of_loc]. rewrite digits2_pos_log2, Hlog.
  assert (Hf : fexp prec emax (52 + 1 + e) - e = 0).
  { unfold fexp, prec, emin, emax, e. lia. }
  rewrite Hf. cbn [shr shr_m shr_r shr_s loc_of_shr_record round_nearest_even Zdigits2].
  rewrite digits2_pos_log2, Hlog, Hf. cbn [shr shr_m].
  destruct (Z.leb_spec e (emax - prec)) as [_|H]; [reflexivity|].
  unfold emax, prec, e in H. lia.
Qed.

(** ** Positive normal doubles *)

Lemma normal_positive_inv (p : double) :
  normal_positive p = true ->
  exists m e, p = S754_finite false m e /\
              Z.log2 (Z.pos m) = 52 /\ -1074 <= e <= 971.
Proof.
  unfold normal_positive. intros H. apply andb_prop in H as [Hv Hc].
  destruct p as [[]|[]| |[] m e]; unfold SFclassify in Hc; try discriminate Hc;
    destruct (Z.eqb_spec (Z.pos (digits2_pos m)) prec) as [Hd|Hd];
    try discriminate Hc.
  rewrite digits2_pos_log2 in Hd. unfold prec in Hd.
  exists m, e. split; [reflexivity|]. split; [lia|].
  cbn in Hv. unfold bounded, canonical_mantissa in Hv.
  apply andb_prop in Hv as [Hcan Hb].
  apply Z.eqb_eq in Hcan. apply Z.leb_le in Hb.
  rewrite digits2_pos_log2 in Hcan.
  unfold fexp, emin, prec, emax in *. lia.
Qed.

Lemma SFleb_normal (m1 m2 : positive) (e1 e2 : Z) :
  SFleb (S754_finite false m1 e1) (S754_finite false m2 e2) = true ->
  e1 < e2 \/ (e1 = e2 /\ Z.pos m1 <= Z.pos m2).
Proof.
  unfold SFleb, SFcompare.
  destruct (Z.compare_spec e1 e2) as [He|He|He]; intros H.
  - right. split; [exact He|].
    change (Pos.compare_cont Eq m1 m2) with (Pos.compare m1 m2) in H.
    destruct (Pos.compare_spec m1 m2) as [Hm|Hm|Hm]; try lia; discriminate H.
  - left. exact He.
  - discriminate H.
Qed.

(** ** The integer part of a rounded value *)

Lemma shiftl_floor_mono (a b c : Z) :
  0 <= a <= b -> 0 <= Z.shiftl a c <= Z.shiftl b c.
Proof.
  intros H. destruct (Z.le_gt_cases 0 c) as [Hc|Hc].
  - rewrite !Z.shiftl_mul_pow2 by lia.
    assert (0 < 2 ^ c) by (apply Z.pow_pos_nonneg; lia). nia.
  - rewrite !Z.shiftl_div_pow2 by lia.
    assert (0 < 2 ^ (- c)) by (apply Z.pow_pos_nonneg; lia).
    split; [apply Z.div_pos; lia | apply Z.div_le_mono; lia].
Qed.

Lemma shiftl_exp_mono (a c c' : Z) :
  0 <= a -> c <= c' -> Z.shiftl a c <= Z.shiftl a c'.
Proof.
  intros Ha Hc.
  destruct (Z.le_gt_cases 0 c) as [H0|H0]; destruct (Z.le_gt_cases 0 c') as [H1|H1]; try lia.
  - rewrite !Z.shiftl_mul_pow2 by lia.
    assert (2 ^ c <= 2 ^ c') by (apply Z.pow_le_mono_r; lia).
    assert (0 < 2 ^ c) by (apply Z.pow_pos_nonneg; lia). nia.
  - rewrite Z.shiftl_div_pow2, Z.shiftl_mul_pow2 by lia.
    assert (0 < 2 ^ (- c)) by (apply Z.pow_pos_nonneg; lia).
    assert (0 < 2 ^ c') by (apply Z.pow_pos_nonneg; lia).
    assert (a / 2 ^ (- c) <= a).
    { apply Z.div_le_upper_bound; [lia|]. nia. }
    nia.
  - rewrite !Z.shiftl_div_pow2 by lia.
    assert (0 < 2 ^ (- c')) by (apply Z.pow_pos_nonneg; lia).
    apply Z.div_le_compat_l; [lia|].
    split; [lia|]. apply Z.pow_le_mono_r; lia.
Qed.

Lemma shiftl_renormalise (c : Z) :
  Z.shiftl (2 ^ 52) (c + 1) = Z.shiftl (2 ^ 53) c.
Proof.
  destruct (Z.le_gt_cases 0 c) as [Hc|Hc].
  - rewrite !Z.shiftl_mul_pow2 by lia.
    rewrite Z.pow_add_r by lia. lia.
  - rewrite !Z.shiftl_div_pow2 by lia.
    replace (- c) with (- (c + 1) + 1) by lia.
    rewrite (Z.pow_add_r 2 (- (c + 1)) 1) by lia.
    change (2 ^ 53) with (2 ^ 52 * 2 ^ 1).
    rewrite Z.div_mul_cancel_r; [reflexivity | | lia].
    apply Z.pow_nonzero; lia.
Qed.


(** ** The product of a positive normal double and a positive integer *)

Lemma log2_mantissa_bounds (m : Z) : Z.log2 m = 52 -> 2 ^ 52 <= m < 2 ^ 53.
Proof.
  intros H.
  assert (Hm : 0 < m).
  { destruct (Z.lt_ge_cases 0 m) as [|Hle]; [assumption|].
    rewrite Z.log2_nonpos in H by lia. discriminate H. }
  pose proof (Z.log2_spec m Hm) as Hs. rewrite H in Hs. exact Hs.
Qed.

Lemma product_round (mp : positive) (ep u L : Z) :
  Z.log2 (Z.pos mp) = 52 -> -1074 <= ep <= 971 -> 0 < u < 2 ^ 53 ->
  L <= ep - 52 ->
  let X := Z.pos mp * 2 ^ (ep - L) * u in
  let k := Z.log2 X - 52 in
  let m1 := rne k X in
  0 < k /\ 2 ^ 52 <= m1 <= 2 ^ 53 /\
  double_mul (S754_finite false mp ep) (double_of_int u) = rounded m1 (k + L).
Proof.
  intros Hmp Hep Hu HL X k m1.
  destruct (double_of_int_pos u Hu) as (mu & eu & Hdu & Hmu & Heu & Hlu).
  pose proof (log2_mantissa_bounds _ Hmp) as Bp.
  pose proof (log2_mantissa_bounds _ Hlu) as Bu.
  set (M := (mp * mu)%positive).
  set (j := ep - L + eu).
  assert (Hj : 0 <= j) by (unfold j; lia).
  assert (HX : X = Z.pos M * 2 ^ j).
  { unfold X, M. rewrite Pos2Z.inj_mul, Hmu.
    replace (ep - L) with (- eu + j) by (unfold j; lia).
    rewrite Z.pow_add_r by lia. ring. }
  assert (HlM : 104 <= Z.log2 (Z.pos M)).
  { change 104 with (Z.log2 (2 ^ 104)). apply Z.log2_le_mono.
    unfold M. rewrite Pos2Z.inj_mul. change (2 ^ 104) with (2 ^ 52 * 2 ^ 52). nia. }
  assert (Hk : k = Z.log2 (Z.pos M) + 1 - prec + j).
  { unfold k. rewrite HX, Z.log2_mul_pow2 by lia. unfold prec. lia. }
  pose proof (binary_round_aux_normal M (ep + eu)) as HR. cbv zeta in HR.
  set (n := Z.log2 (Z.pos M) + 1 - prec) in *.
  assert (Hn : 0 < n) by (unfold n, prec; lia).
  destruct HR as [Hm1 HR]; [exact Hn | unfold emin, emax, prec in *; lia |].
  assert (Hrne : rne n (Z.pos M) = m1).
  { unfold m1. rewrite Hk, HX. fold n. symmetry. apply rne_scale; lia. }
  rewrite Hrne in Hm1, HR.
  split; [lia|]. split; [exact Hm1|].
  rewrite Hdu. unfold double_mul. cbn [SFmul xorb]. fold M.
  rewrite HR. unfold rounded, rounded_exponent, rounded_mantissa.
  replace (k + L) with (ep + eu + n) by (unfold j in Hk; lia).
  reflexivity.
Qed.

Lemma double_trunc_rounded (m1 c : Z) :
  2 ^ 52 <= m1 <= 2 ^ 53 ->
  double_trunc (rounded m1 c) =
    if rounded_exponent m1 c <=? emax - prec then Some (Z.shiftl m1 c) else None.
Proof.
  intros Hm. unfold rounded.
  destruct (rounded_exponent m1 c <=? emax - prec); [|reflexivity].
  cbn [double_trunc]. f_equal.
  unfold rounded_mantissa, rounded_exponent.
  destruct (Z.ltb_spec m1 (2 ^ 53)) as [Hlt|Hge].
  - rewrite Z2Pos.id by lia. reflexivity.
  - rewrite Z2Pos.id by lia. rewrite shiftl_renormalise.
    f_equal. lia.
Qed.

(** Rounding and truncation keep the order of the exact products. *)
Lemma product_trunc_mono (p1 p2 : double) (u1 u2 a2 : Z) :
  normal_positive p1 = true -> normal_positive p2 = true ->
  SFleb p1 p2 = true ->
  0 < u1 <= u2 -> u2 < 2 ^ 53 ->
  double_trunc (double_mul p2 (double_of_int u2)) = Some a2 ->
  exists a1,
    double_trunc (double_mul p1 (double_of_int u1)) = Some a1 /\ 0 <= a1 <= a2.
Proof.
  intros N1 N2 Hle Hu Hu2 H2.
  destruct (normal_positive_inv p1 N1) as (m1 & e1 & -> & Hl1 & He1).
  destruct (normal_positive_inv p2 N2) as (m2 & e2 & -> & Hl2 & He2).
  pose proof (log2_mantissa_bounds _ Hl1) as B1.
  pose proof (log2_mantissa_bounds _ Hl2) as B2.
  set (L := Z.min e1 e2 - 52).
  destruct (product_round m1 e1 u1 L Hl1 He1 ltac:(lia) ltac:(unfold L; lia))
    as (Hk1 & Hr1 & E1).
  destruct (product_round m2 e2 u2 L Hl2 He2 ltac:(lia) ltac:(unfold L; lia))
    as (Hk2 & Hr2 & E2).
  set (X1 := Z.pos m1 * 2 ^ (e1 - L) * u1) in *.
  set (X2 := Z.pos m2 * 2 ^ (e2 - L) * u2) in *.
  set (k1 := Z.log2 X1 - 52) in *. set (k2 := Z.log2 X2 - 52) in *.
  set (r1 := rne k1 X1) in *. set (r2 := rne k2 X2) in *.
  assert (HA : Z.pos m1 * 2 ^ (e1 - L) <= Z.pos m2 * 2 ^ (e2 - L)).
  { destruct (SFleb_normal m1 m2 e1 e2 Hle) as [Hlt|[Heq Hm]].
    - replace (e2 - L) with (e2 - e1 + (e1 - L)) by lia.
      rewrite Z.pow_add_r by (unfold L; lia).
      assert (0 < 2 ^ (e1 - L)) by (apply Z.pow_pos_nonneg; unfold L; lia).
      assert (Hq : 2 ^ 1 <= 2 ^ (e2 - e1)) by (apply Z.pow_le_mono_r; lia).
      change (2 ^ 1) with 2 in Hq.
      assert (Z.pos m1 <= Z.pos m2 * 2 ^ (e2 - e1)).
      { apply Z.le_trans with (Z.pos m2 * 2); [lia|].
        apply Z.mul_le_mono_nonneg_l; lia. }
      rewrite Z.mul_assoc. apply Z.mul_le_mono_nonneg_r; lia.
    - rewrite Heq.
      assert (0 < 2 ^ (e2 - L)) by (apply Z.pow_pos_nonneg; unfold L; lia).
      apply Z.mul_le_mono_nonneg_r; lia. }
  assert (HP1 : 0 < Z.pos m1 * 2 ^ (e1 - L)).
  { assert (0 < 2 ^ (e1 - L)) by (apply Z.pow_pos_nonneg; unfold L; lia).
    apply Z.mul_pos_pos; lia. }
  assert (HX : 0 < X1 <= X2).
  { unfold X1, X2. split; [apply Z.mul_pos_pos; lia|].
    apply Z.mul_le_mono_nonneg; lia. }
  assert (Hk : k1 <= k2).
  { unfold k1, k2. pose proof (Z.log2_le_mono X1 X2 ltac:(lia)). lia. }
  assert (Hr : k1 = k2 -> r1 <= r2).
  { intros Heq. unfold r1, r2. rewrite Heq. apply rne_mono; lia. }
  rewrite E2, double_trunc_rounded in H2 by exact Hr2.
  rewrite E1, double_trunc_rounded by exact Hr1.
  destruct (Z.leb_spec (rounded_exponent r2 (k2 + L)) (emax - prec)) as [Hfin|]; [|discriminate H2].
  injection H2 as <-.
  assert (Hexp : rounded_exponent r1 (k1 + L) <= rounded_exponent r2 (k2 + L)).
  { unfold rounded_exponent.
    destruct (Z.ltb_spec r1 (2 ^ 53)); destruct (Z.ltb_spec r2 (2 ^ 53)); lia. }
  destruct (Z.leb_spec (rounded_exponent r1 (k1 + L)) (emax - prec)); [|lia].
  eexists. split; [reflexivity|].
  split; [apply Z.shiftl_nonneg; lia|].
  destruct (Z.eq_dec k1 k2) as [Heq|Hne].
  - rewrite Heq. apply shiftl_floor_mono. specialize (Hr Heq). lia.
  - apply Z.le_trans with (Z.shiftl (2 ^ 53) (k1 + L)).
    { apply shiftl_floor_mono. lia. }
    rewrite <- shiftl_renormalise.
    apply Z.le_trans with (Z.shiftl (2 ^ 52) (k2 + L)).
    { apply shiftl_exp_mono; lia. }
    apply shiftl_floor_mono. lia.
Qed.


(** ** Monotonicity of the accelerator *)

Lemma SFopp_involutive (f : double) : SFopp (SFopp f) = f.
Proof.
  destruct f as [s|s| |s m e]; cbn; rewrite ?negb_involutive; reflexivity.
Qed.

(** The integer part of [p * v] is the integer part of [p * |v|] with the
    sign of [v]. *)
Lemma double_trunc_mul_sign (p : double) (v t : Z) :
  double_trunc (double_mul p (double_of_int (Z.abs v))) = Some t ->
  double_trunc (double_mul p (double_of_int v)) = Some (Z.sgn v * t).
Proof.
  destruct v as [|pv|pv]; cbn [Z.abs Z.sgn]; intros H.
  - rewrite H. f_equal.
    revert H. unfold double_of_int. cbn [binary_normalize].
    destruct p as [s|s| |s m e]; cbn; try discriminate;
      intros H; injection H as <-; reflexivity.
  - rewrite H. f_equal; lia.
  - change (Z.neg pv) with (- Z.pos pv).
    rewrite double_of_int_opp, double_mul_opp_r by lia.
    rewrite (double_trunc_opp _ t H). f_equal; lia.
Qed.

Lemma double_trunc_mul_abs (p : double) (v a : Z) :
  double_trunc (double_mul p (double_of_int v)) = Some a ->
  double_trunc (double_mul p (double_of_int (Z.abs v))) = Some (Z.sgn v * a).
Proof.
  destruct v as [|pv|pv]; cbn [Z.abs Z.sgn]; intros H.
  - rewrite H. f_equal.
    revert H. unfold double_of_int. cbn [binary_normalize].
    destruct p as [s|s| |s m e]; cbn; try discriminate;
      intros H; injection H as <-; reflexivity.
  - rewrite H. f_equal; lia.
  - change (Z.neg pv) with (- Z.pos pv) in H.
    rewrite double_of_int_opp, double_mul_opp_r in H by lia.
    apply double_trunc_opp in H. rewrite SFopp_involutive in H.
    rewrite H. f_equal; lia.
Qed.

Lemma int64_of_double_inv (f : double) (a : Z) :
  int64_of_double f = Some a <->
  double_trunc f = Some a /\ INT64_MIN <= a <= INT64_MAX.
Proof.
  unfold int64_of_double.
  destruct (double_trunc f) as [z|]; [|split; [discriminate | intros [H _]; discriminate H]].
  destruct (Z.leb_spec INT64_MIN z) as [Hlo|Hlo];
    destruct (Z.leb_spec z INT64_MAX) as [Hhi|Hhi]; cbn [andb]; split;
    try discriminate;
    try (intros H; injection H as <-; auto);
    try (intros [H Hr]; injection H as <-; (reflexivity || lia)).
Qed.

Lemma exponent_mono (P : accel) (v1 v2 : Z) :
  stick P -> Z.abs v1 <= Z.abs v2 -> Z.abs v2 < 2 ^ 31 ->
  exponent P v1 <= exponent P v2.
Proof.
  intros HP H1 H2. destruct (stick_consts P HP) as (Hd & _).
  unfold exponent, c_abs. rewrite !int32_small by lia.
  rewrite Hd. apply Z.quot_le_mono; lia.
Qed.

(** The magnitude of the scaled value grows with the magnitude of the
    stick value, when [pow] does not decrease. *)
Lemma scaled_magnitude_mono pow (P : accel) (v1 v2 a2 : Z) :
  Z.abs v1 <= Z.abs v2 -> Z.abs v2 < 2 ^ 53 ->
  normal_positive (pow (base P) (double_of_int (exponent P v1))) = true ->
  normal_positive (pow (base P) (double_of_int (exponent P v2))) = true ->
  SFleb (pow (base P) (double_of_int (exponent P v1)))
        (pow (base P) (double_of_int (exponent P v2))) = true ->
  scaled pow P v2 = Some a2 -> INT64_MIN < a2 ->
  exists a1, scaled pow P v1 = Some a1 /\ Z.abs a1 <= Z.abs a2.
Proof.
  intros Hv Hv2 N1 N2 Hle H2 Hmin.
  unfold scaled in *.
  set (p1 := pow (base P) (double_of_int (exponent P v1))) in *.
  set (p2 := pow (base P) (double_of_int (exponent P v2))) in *.
  apply int64_of_double_inv in H2 as [T2 R2].
  apply double_trunc_mul_abs in T2.
  destruct (Z.eq_dec v1 0) as [->|Hnz].
  - exists 0. split; [|lia].
    destruct (normal_positive_inv p1 N1) as (m & e & -> & _).
    reflexivity.
  - destruct (product_trunc_mono p1 p2 (Z.abs v1) (Z.abs v2) _ N1 N2 Hle
                ltac:(lia) Hv2 T2) as (t1 & T1 & B1).
    exists (Z.sgn v1 * t1).
    split.
    + apply int64_of_double_inv. split.
      * apply double_trunc_mul_sign. exact T1.
      * unfold INT64_MIN, INT64_MAX in *. nia.
    + nia.
Qed.

(** Without overflow the delta is the truncated quotient, whose magnitude
    grows with the magnitudes of its factors. *)
Lemma delta_magnitude_mono (a1 a2 dt1 dt2 m : Z) :
  Z.abs a1 <= Z.abs a2 -> 0 <= dt1 <= dt2 -> 0 <= m ->
  Z.abs a2 * dt2 <= INT64_MAX ->
  Z.abs (Z.quot (int64 (a1 * dt1)) (2 ^ 36) * m) <=
  Z.abs (Z.quot (int64 (a2 * dt2)) (2 ^ 36) * m).
Proof.
  intros Ha Hdt Hm Hmax.
  assert (H1 : Z.abs (a1 * dt1) <= Z.abs (a2 * dt2)).
  { rewrite !Z.abs_mul, (Z.abs_eq dt1), (Z.abs_eq dt2) by lia.
    apply Z.mul_le_mono_nonneg; lia. }
  assert (H2 : Z.abs (a2 * dt2) <= INT64_MAX).
  { rewrite Z.abs_mul, (Z.abs_eq dt2) by lia. exact Hmax. }
  rewrite !int64_small by (unfold INT64_MIN, INT64_MAX in *; lia).
  rewrite !Z.abs_mul, (Z.abs_eq m) by lia.
  apply Z.mul_le_mono_nonneg_r; [lia|].
  rewrite <- !Z.quot_abs by lia.
  rewrite !Z.quot_div_nonneg by lia.
  apply Z.div_le_mono; lia.
Qed.

(** C8 (as the code has it): for each of the two sticks, as long as the
    64-bit product of the scaled value and the elapsed time does not
    overflow, (1) for a fixed raw value the magnitude of the delta is
    non-decreasing in the elapsed time; (2) for a fixed elapsed time
    [dt > 0] the magnitude of the delta is non-decreasing in the magnitude
    of the raw value, provided [pow] returns positive normal doubles that
    are ordered like its exponents, which themselves are ordered like the
    magnitudes of the raw values. *)
Theorem axis_accelerator_monotone pow (P : accel) :
  stick P ->
  (forall v dt1 dt2 a,
     scaled pow P v = Some a ->
     0 <= dt1 <= dt2 ->
     Z.abs a * dt2 <= INT64_MAX ->
     exists d1 d2,
       axis_delta pow P v dt1 = Some d1 /\
       axis_delta pow P v dt2 = Some d2 /\
       Z.abs d1 <= Z.abs d2) /\
  (forall v1 v2 dt a2,
     0 < dt ->
     Z.abs v1 <= Z.abs v2 -> Z.abs v2 < 2 ^ 31 ->
     normal_positive (pow (base P) (double_of_int (exponent P v1))) = true ->
     normal_positive (pow (base P) (double_of_int (exponent P v2))) = true ->
     SFleb (pow (base P) (double_of_int (exponent P v1)))
           (pow (base P) (double_of_int (exponent P v2))) = true ->
     scaled pow P v2 = Some a2 ->
     Z.abs a2 * dt <= INT64_MAX ->
     exponent P v1 <= exponent P v2 /\
     exists d1 d2,
       axis_delta pow P v1 dt = Some d1 /\
       axis_delta pow P v2 dt = Some d2 /\
       Z.abs d1 <= Z.abs d2).
Proof.
  intros HP. destruct (stick_consts P HP) as (_ & _ & _ & Hm). split.
  - intros v dt1 dt2 a Ha Hdt Hmax.
    destruct (axis_delta_value pow P v dt1 a HP Ha) as [E1 _].
    destruct (axis_delta_value pow P v dt2 a HP Ha) as [E2 _].
    eexists. eexists. split; [exact E1|]. split; [exact E2|].
    apply delta_magnitude_mono; lia.
  - intros v1 v2 dt a2 Hdt Hv Hv2 N1 N2 Hle Ha2 Hmax.
    split; [apply exponent_mono; assumption|].
    assert (Hmin : INT64_MIN < a2) by (unfold INT64_MIN, INT64_MAX in *; nia).
    destruct (scaled_magnitude_mono pow P v1 v2 a2 Hv ltac:(lia) N1 N2 Hle Ha2 Hmin)
      as (a1 & Ha1 & Hab).
    destruct (axis_delta_value pow P v1 dt a1 HP Ha1) as [E1 _].
    destruct (axis_delta_value pow P v2 dt a2 HP Ha2) as [E2 _].
    eexists. eexists. split; [exact E1|]. split; [exact E2|].
    apply delta_magnitude_mono; lia.
Qed.

Lemma axis_accelerator_monotone_witness :
  (exists d1 d2,
     axis_delta pow_iter lparams 32767 10000000 = Some d1 /\
     axis_delta pow_iter lparams 32767 20000000 = Some d2 /\
     Z.abs d1 <= Z.abs d2) /\
  (exists d1 d2,
     axis_delta pow_iter rparams (-20000) 20000000 = Some d1 /\
     axis_delta pow_iter rparams 32767 20000000 = Some d2 /\
     Z.abs d1 <= Z.abs d2).
Proof.
  split.
  - apply (proj1 (axis_accelerator_monotone pow_iter lparams (or_introl eq_refl))
             32767 10000000 20000000 52304);
      [vm_compute; reflexivity | lia | vm_compute; discriminate].
  - apply (proj2 (axis_accelerator_monotone pow_iter rparams (or_intror eq_refl))
             (-20000) 32767 20000000 52304);
      [lia | cbn; lia | cbn; lia | vm_compute; reflexivity | vm_compute; reflexivity
       | vm_compute; reflexivity | vm_compute; reflexivity | vm_compute; discriminate].
Defined.

(** At the dead-zone edge the scaled value is 8192; after 2^49 ns the
    delta is 2^26, after 2^51 ns the 64-bit product has wrapped around to
    zero and the delta is 0. *)
Lemma axis_accelerator_not_monotone_at_wrap :
  axis_delta pow_iter lparams 8192 (2 ^ 49) = Some (2 ^ 26) /\
  axis_delta pow_iter lparams 8192 (2 ^ 51) = Some 0 /\
  2 ^ 49 <= 2 ^ 51 /\
  ~ Z.abs (2 ^ 26) <= Z.abs 0.
Proof.
  repeat split; try (vm_compute; reflexivity); lia.
Qed.

(** * Further properties of the code *)

(** ** The clock *)

(** X1: for a [timespec] with [0 <= tv_nsec < 10^9] and
    [0 <= tv_sec <= 9223372035] (292 years of uptime), [get_time] does not
    overflow, the seconds and nanoseconds can be read back from it, and it
    orders two such readings as the clock does: first by seconds, then by
    nanoseconds.  The interval between two readings taken in that order is
    their non-negative difference. *)
Theorem get_time_faithful (s1 n1 s2 n2 : Z) :
  0 <= s1 <= 9223372035 -> 0 <= n1 < 1000000000 ->
  0 <= s2 <= 9223372035 -> 0 <= n2 < 1000000000 ->
  get_time s1 n1 = s1 * 1000000000 + n1 /\
  get_time s1 n1 / 1000000000 = s1 /\
  get_time s1 n1 mod 1000000000 = n1 /\
  (get_time s1 n1 < get_time s2 n2 <-> s1 < s2 \/ (s1 = s2 /\ n1 < n2)) /\
  (get_time s1 n1 <= get_time s2 n2 ->
   int64 (get_time s2 n2 - get_time s1 n1) =
     (s2 - s1) * 1000000000 + (n2 - n1) /\
   0 <= int64 (get_time s2 n2 - get_time s1 n1)).
Proof.
  intros Hs1 Hn1 Hs2 Hn2.
  assert (G : forall s n, 0 <= s <= 9223372035 -> 0 <= n < 1000000000 ->
                          get_time s n = s * 1000000000 + n).
  { intros s n Hs Hn. unfold get_time.
    rewrite (int64_small (s * 1000000000)) by (unfold INT64_MIN, INT64_MAX; lia).
    apply int64_small. unfold INT64_MIN, INT64_MAX. lia. }
  rewrite (G s1 n1 Hs1 Hn1), (G s2 n2 Hs2 Hn2).
  split; [reflexivity|].
  split; [symmetry; apply Z.div_unique with (r := n1); lia|].
  split; [symmetry; apply Z.mod_unique with (q := s1); lia|].
  split; [lia|].
  intros Hle.
  rewrite int64_small by (unfold INT64_MIN, INT64_MAX; lia).
  lia.
Qed.

Lemma get_time_faithful_witness :
  get_time 12 999999999 = 12999999999 /\
  get_time 12 999999999 < get_time 13 0.
Proof.
  destruct (get_time_faithful 12 999999999 13 0) as (H1 & _ & _ & H4 & _);
    [lia | lia | lia | lia |].
  split; [exact H1|]. apply H4. lia.
Defined.

(** ** DeviceLocator, for every content of the device directory *)

Lemma skipped_passed (ns : namespace) (j : nat) :
  openable (ns j) = true -> qualifies (ns j) = false ->
  forall x, In x (skipped ns j) <->
            x = Open j \/ x = Close j \/ (x = Free j /\ exists d, ns j = Device d).
Proof.
  unfold skipped. destruct (ns j) as [| |d]; cbn; intros Ho Hq x; try discriminate.
  - split.
    + intros [<-|[<-|[]]]; auto.
    + intros [->|[->|[_ [d Hd]]]]; auto. discriminate Hd.
  - split.
    + intros [<-|[<-|[<-|[]]]]; eauto.
    + intros [->|[->|[-> _]]]; auto.
Qed.

(** How far the scan gets and what it has done by then: it passes over
    [k] files that open without the signature, and then runs out of
    indices, or meets a file that does not open, or meets a pad. *)
Lemma scan_shape (ns : namespace) (n i : nat) :
  exists k, (k <= n)%nat /\
    (forall j, (i <= j < i + k)%nat ->
               openable (ns j) = true /\ qualifies (ns j) = false) /\
    ((k = n /\ scan ns n i = (None, flat_map (skipped ns) (seq i k))) \/
     ((k < n)%nat /\ ns (i + k)%nat = Unopenable /\
      scan ns n i = (None, flat_map (skipped ns) (seq i k) ++ [Open (i + k)])) \/
     ((k < n)%nat /\ exists d, ns (i + k)%nat = Device d /\ is_gamepad d = true /\
      scan ns n i = (Some ((i + k)%nat, d),
                     flat_map (skipped ns) (seq i k) ++ [Open (i + k)]))).
Proof.
  revert i. induction n as [|n IH]; intros i.
  - exists 0%nat. split; [lia|]. split; [intros; lia|]. left. split; reflexivity.
  - destruct (ns i) as [| |d] eqn:Hi.
    + exists 0%nat. split; [lia|]. split; [intros; lia|].
      right; left. rewrite Nat.add_0_r. cbn [scan seq flat_map app]. rewrite Hi. auto with arith.
    + destruct (IH (S i)) as (k & Hk & Hlow & Hcases).
      exists (S k). split; [lia|]. split.
      { intros j Hj. destruct (Nat.eq_dec j i) as [->|Hne].
        - rewrite Hi. split; reflexivity.
        - apply Hlow. lia. }
      replace (i + S k)%nat with (S i + k)%nat by lia.
      cbn [scan seq flat_map]. unfold skipped at 1 3 5. rewrite Hi.
      destruct Hcases as [[-> E]|[(Hlt & Hu & E)|(Hlt & d & Hd & Hg & E)]].
      * left. rewrite E. auto.
      * right; left. rewrite E. repeat split; [lia | assumption].
      * right; right. rewrite E. split; [lia|]. exists d. auto.
    + destruct (is_gamepad d) eqn:Hg.
      * exists 0%nat. split; [lia|]. split; [intros; lia|].
        right; right. rewrite Nat.add_0_r. split; [lia|]. exists d.
        cbn [scan seq flat_map app]. rewrite Hi, Hg. auto.
      * destruct (IH (S i)) as (k & Hk & Hlow & Hcases).
        exists (S k). split; [lia|]. split.
        { intros j Hj. destruct (Nat.eq_dec j i) as [->|Hne].
          - rewrite Hi. cbn. auto.
          - apply Hlow. lia. }
        replace (i + S k)%nat with (S i + k)%nat by lia.
        cbn [scan seq flat_map]. unfold skipped at 1 3 5. rewrite Hi, Hg.
        destruct Hcases as [[-> E]|[(Hlt & Hu & E)|(Hlt & d' & Hd & Hg' & E)]].
        -- left. rewrite E. auto.
        -- right; left. rewrite E. repeat split; [lia | assumption].
        -- right; right. rewrite E. split; [lia|]. exists d'. auto.
Qed.

Lemma find_gamepad_some (ns : namespace) (i : nat) (d : evdev) (t : list effect) :
  find_gamepad ns = (Some (i, d), t) ->
  (i < 32)%nat /\ ns i = Device d /\ is_gamepad d = true /\
  (forall j, (j < i)%nat -> openable (ns j) = true /\ qualifies (ns j) = false) /\
  t = flat_map (skipped ns) (seq 0 i) ++ [Open i].
Proof.
  unfold find_gamepad. intros H.
  destruct (scan_shape ns 32 0) as (k & Hk & Hlow & [[_ E]|[(_ & _ & E)|(Hlt & d' & Hd & Hg & E)]]);
    rewrite E in H; try discriminate H.
  cbn [Nat.add] in *. injection H as <- <- <-.
  repeat split; try assumption; apply Hlow; lia.
Qed.

Lemma find_gamepad_none (ns : namespace) :
  fst (find_gamepad ns) = None <-> ~ exists i, reachable_gamepad ns i.
Proof.
  unfold find_gamepad, reachable_gamepad.
  destruct (scan_shape ns 32 0) as (k & Hk & Hlow & [[-> E]|[(Hlt & Hu & E)|(Hlt & d & Hd & Hg & E)]]);
    rewrite E; cbn [fst Nat.add] in *.
  - split; [|reflexivity]. intros _ (i & Hi & Hq & _).
    destruct (Hlow i ltac:(lia)) as [_ Hq']. congruence.
  - split; [|reflexivity]. intros _ (i & Hi & Hq & Ho).
    destruct (Nat.lt_ge_cases i k) as [Hik|Hik].
    + destruct (Hlow i ltac:(lia)) as [_ Hq']. congruence.
    + destruct (Nat.eq_dec i k) as [->|Hne].
      * rewrite Hu in Hq. discriminate Hq.
      * specialize (Ho k ltac:(lia)). rewrite Hu in Ho. discriminate Ho.
  - split; [discriminate|]. intros Hn. exfalso. apply Hn.
    exists k. split; [lia|]. split; [rewrite Hd; exact Hg|].
    intros j Hj. apply Hlow. lia.
Qed.

(** X2: whatever the device directory holds, a device returned by
    [find_gamepad] is one of [event0] to [event31], carries the capability
    signature, and is the lowest-numbered such file: every file before it
    opened and did not carry the signature. *)
Theorem find_gamepad_sound (ns : namespace) (i : nat) (d : evdev) (t : list effect) :
  find_gamepad ns = (Some (i, d), t) ->
  (i < 32)%nat /\ ns i = Device d /\ is_gamepad d = true /\
  forall j, (j < i)%nat -> openable (ns j) = true /\ qualifies (ns j) = false.
Proof.
  intros H. destruct (find_gamepad_some ns i d t H) as (H1 & H2 & H3 & H4 & _). auto.
Qed.

Lemma find_gamepad_sound_witness :
  (3 < 32)%nat /\ five_files 3%nat = Device pad /\ is_gamepad pad = true.
Proof.
  destruct (find_gamepad_sound five_files 3 pad
              [Open 0; Free 0; Close 0; Open 1; Close 1; Open 2; Free 2; Close 2; Open 3]
              eq_refl) as (H1 & H2 & H3 & _).
  auto.
Defined.

(** X3: [find_gamepad] reports "not found" exactly when no file among
    [event0] to [event31] both carries the capability signature and has
    only files that open before it. *)
Theorem find_gamepad_not_found (ns : namespace) :
  fst (find_gamepad ns) = None <-> ~ exists i, reachable_gamepad ns i.
Proof.
  exact (find_gamepad_none ns).
Qed.

(** X4: [find_gamepad] looks at [event0] to [event31] only: two device
    directories that agree on these files give the same result and the
    same system calls. *)
Theorem find_gamepad_bounded (ns ns' : namespace) :
  (forall i, (i < 32)%nat -> ns i = ns' i) ->
  find_gamepad ns = find_gamepad ns'.
Proof.
  intros H. unfold find_gamepad.
  assert (G : forall n i, (i + n <= 32)%nat -> scan ns n i = scan ns' n i).
  { induction n as [|n IH]; intros i Hi; [reflexivity|].
    cbn [scan]. rewrite <- (H i) by lia.
    rewrite (IH (S i)) by lia. reflexivity. }
  apply G. lia.
Qed.

Lemma find_gamepad_bounded_witness :
  find_gamepad (fun i => if (i <? 32)%nat then five_files i else Device pad) =
  find_gamepad five_files.
Proof.
  apply find_gamepad_bounded.
  intros i Hi. destruct (Nat.ltb_spec i 32); [reflexivity | lia].
Defined.

Lemma find_gamepad_trace (ns : namespace) (j : nat) :
  let '(r, t) := find_gamepad ns in
  (In (Close j) t <->
   In (Open j) t /\ openable (ns j) = true /\ forall d, r <> Some (j, d)) /\
  (In (Free j) t <-> In (Close j) t /\ exists d, ns j = Device d).
Proof.
  unfold find_gamepad.
  destruct (scan_shape ns 32 0) as (k & Hk & Hlow & Hcases).
  cbn [Nat.add] in *.
  assert (Hpass : forall x, In x (flat_map (skipped ns) (seq 0 k)) <->
                            exists y, (y < k)%nat /\
                              (x = Open y \/ x = Close y \/
                               (x = Free y /\ exists d, ns y = Device d))).
  { intros x. rewrite in_flat_map. split.
    - intros (y & Hy & Hx). apply in_seq in Hy. exists y. split; [lia|].
      destruct (Hlow y ltac:(lia)) as [Ho Hq].
      apply (skipped_passed ns y Ho Hq). exact Hx.
    - intros (y & Hy & Hx). exists y. split; [apply in_seq; lia|].
      destruct (Hlow y ltac:(lia)) as [Ho Hq].
      apply (skipped_passed ns y Ho Hq). exact Hx. }
  assert (Hc : In (Close j) (flat_map (skipped ns) (seq 0 k)) <-> (j < k)%nat).
  { rewrite Hpass. split.
    - intros (y & Hy & [H|[H|[H _]]]); try discriminate H. injection H as ->. exact Hy.
    - intros Hj. exists j. auto. }
  assert (Ho : In (Open j) (flat_map (skipped ns) (seq 0 k)) <-> (j < k)%nat).
  { rewrite Hpass. split.
    - intros (y & Hy & [H|[H|[H _]]]); try discriminate H. injection H as ->. exact Hy.
    - intros Hj. exists j. auto. }
  assert (Hf : In (Free j) (flat_map (skipped ns) (seq 0 k)) <->
               (j < k)%nat /\ exists d, ns j = Device d).
  { rewrite Hpass. split.
    - intros (y & Hy & [H|[H|[H Hd]]]); try discriminate H. injection H as ->. auto.
    - intros [Hj Hd]. exists j. auto. }
  destruct Hcases as [[-> E]|[(Hlt & Hu & E)|(Hlt & d & Hd & Hg & E)]]; rewrite E.
  - split.
    + rewrite Hc, Ho. split.
      * intros Hj. repeat split; [exact Hj | apply Hlow; lia | discriminate].
      * intros [Hj _]. exact Hj.
    + rewrite Hf, Hc. reflexivity.
  - split.
    + rewrite !in_app_iff, Hc, Ho. cbn [In]. split.
      * intros [Hj|[H|[]]]; [|discriminate H].
        repeat split; [auto | apply Hlow; lia | discriminate].
      * intros ([Hj|[H|[]]] & Hop & _); [auto|].
        injection H as <-. rewrite Hu in Hop. discriminate Hop.
    + rewrite !in_app_iff, Hf, Hc. cbn [In]. split.
      * intros [[Hj Hdev]|[H|[]]]; [auto | discriminate H].
      * intros [[Hj|[H|[]]] Hdev]; [auto | discriminate H].
  - split.
    + rewrite !in_app_iff, Hc, Ho. cbn [In]. split.
      * intros [Hj|[H|[]]]; [|discriminate H].
        repeat split; [auto | apply Hlow; lia |].
        intros d' H. injection H as H _. lia.
      * intros ([Hj|[H|[]]] & _ & Hr); [auto|].
        injection H as <-. exfalso. apply (Hr d). reflexivity.
    + rewrite !in_app_iff, Hf, Hc. cbn [In]. split.
      * intros [[Hj Hdev]|[H|[]]]; [auto | discriminate H].
      * intros [[Hj|[H|[]]] Hdev]; [auto | discriminate H].
Qed.

(** X5: [find_gamepad] leaks no descriptor: whatever the device directory
    holds, a file it tried to open is closed again before it returns if
    and only if the file did open and is not the device returned; a
    libevdev handle is freed exactly for the closed files that had one. *)
Theorem find_gamepad_closes (ns : namespace) (j : nat) :
  let '(r, t) := find_gamepad ns in
  (In (Close j) t <->
   In (Open j) t /\ openable (ns j) = true /\ forall d, r <> Some (j, d)) /\
  (In (Free j) t <-> In (Close j) t /\ exists d, ns j = Device d).
Proof.
  exact (find_gamepad_trace ns j).
Qed.

(** ** The virtual device *)

(** X6: the daemon never takes its own virtual device for a pad: the
    device that [create_virtual_device] registers declares no absolute
    axis, so wherever it shows up in the device directory, [find_gamepad]
    does not return it. *)
Theorem virtual_device_not_found (ns : namespace) (i j : nat) (d : evdev)
        (t : list effect) :
  ns i = Device virtual_device ->
  find_gamepad ns = (Some (j, d), t) ->
  j <> i /\ libevdev_has_event_type virtual_device EV_ABS = false.
Proof.
  intros Hi H. split; [|reflexivity].
  destruct (find_gamepad_some ns j d t H) as (_ & Hj & Hg & _).
  intros ->. rewrite Hi in Hj. injection Hj as <-. discriminate Hg.
Qed.

Lemma virtual_device_not_found_witness :
  let ns := fun i => match i with 0%nat => Device virtual_device | _ => five_files i end in
  fst (find_gamepad ns) = Some (3%nat, pad).
Proof.
  cbv zeta.
  set (ns := fun i => match i with 0%nat => Device virtual_device | _ => five_files i end).
  assert (E : find_gamepad ns = (Some (3%nat, pad), snd (find_gamepad ns)))
    by (vm_compute; reflexivity).
  destruct (virtual_device_not_found ns 0 3 pad _ eq_refl E) as [_ _].
  rewrite E. reflexivity.
Defined.

(** ** One pass of the session loop, taken apart *)

Lemma recompute_inv pow (st st' : session) (interval : Z) (out : list event) :
  recompute pow st interval = Some (st', out) ->
  out = emit_pointer (slx st') (sly st') ++ emit_scroll (srx st') (sry st') /\
  axis_delta pow lparams (lx st) interval = Some (slx st') /\
  axis_delta pow lparams (ly st) interval = Some (sly st') /\
  axis_delta pow rparams (rx st) interval = Some (srx st') /\
  axis_delta pow rparams (ry st) interval = Some (sry st') /\
  lx st' = lx st /\ ly st' = ly st /\ rx st' = rx st /\ ry st' = ry st /\
  hat0x st' = hat0x st /\ hat0y st' = hat0y st /\
  lz st' = lz st /\ rz st' = rz st /\ last_time st' = last_time st.
Proof.
  unfold recompute.
  destruct (axis_delta pow lparams (lx st) interval) as [dlx|]; [|discriminate].
  destruct (axis_delta pow lparams (ly st) interval) as [dly|]; [|discriminate].
  destruct (axis_delta pow rparams (rx st) interval) as [drx|]; [|discriminate].
  destruct (axis_delta pow rparams (ry st) interval) as [dry|]; [|discriminate].
  intros H. injection H as <- <-. cbn. repeat split; reflexivity.
Qed.

Lemma iteration_continue pow (st st' : session) (now : Z) (p : poll_result)
      (rc : Z) (ev : event) (out : list event) :
  iteration pow st now p rc ev = Continue st' out ->
  0 <= poll_rc p /\ signal_revents p = 0 /\
  exists st1 out1 out2,
    ((watch_revents p <> 0 /\ 0 <= rc /\ handle_event (clocked st now) ev = (st1, out1)) \/
     (watch_revents p = 0 /\ st1 = clocked st now /\ out1 = [])) /\
    recompute pow st1 (int64 (now - last_time st)) = Some (st', out2) /\
    out = out1 ++ out2.
Proof.
  unfold iteration. fold (clocked st now).
  destruct (Z.ltb_spec (poll_rc p) 0) as [Hp|Hp]; [discriminate|].
  destruct (Z.eqb_spec (signal_revents p) 0) as [Hs|Hs]; cbn [negb]; [|discriminate].
  destruct (Z.eqb_spec (watch_revents p) 0) as [Hw|Hw]; cbn [negb].
  - destruct (recompute pow _ _) as [[st2 out2]|] eqn:E; [|discriminate].
    intros H. injection H as <- <-.
    repeat split; try assumption.
    exists (clocked st now), [], out2. auto.
  - destruct (Z.ltb_spec rc 0) as [Hr|Hr].
    + destruct (rc =? - ENODEV); discriminate.
    + destruct (handle_event (clocked st now) ev) as [st1 out1] eqn:Eh.
      destruct (recompute pow st1 _) as [[st2 out2]|] eqn:E; [|discriminate].
      intros H. injection H as <- <-.
      repeat split; try assumption.
      exists st1, out1, out2. auto.
Qed.

(** ** What the sink is asked to carry *)

Lemma declared_key (k v : Z) :
  In (EV_KEY, k) (dev_codes virtual_device) ->
  declared virtual_device (key_event k v) = true.
Proof.
  intros H. unfold declared, libevdev_has_event_code. cbn [ev_type ev_code key_event].
  apply orb_true_iff. right. apply andb_true_iff. split; [reflexivity|].
  apply existsb_exists. exists (EV_KEY, k). split; [exact H|].
  cbn [fst snd]. rewrite !Z.eqb_refl. reflexivity.
Qed.

Lemma declared_rel (c v : Z) :
  In (EV_REL, c) (dev_codes virtual_device) ->
  declared virtual_device (rel_event c v) = true.
Proof.
  intros H. unfold declared, libevdev_has_event_code. cbn [ev_type ev_code rel_event].
  apply orb_true_iff. right. apply andb_true_iff. split; [reflexivity|].
  apply existsb_exists. exists (EV_REL, c). split; [exact H|].
  cbn [fst snd]. rewrite !Z.eqb_refl. reflexivity.
Qed.

Ltac in_codes := cbn; tauto.

Lemma hat_axis_declared (neg pos hat value : Z) :
  In (EV_KEY, neg) (dev_codes virtual_device) ->
  In (EV_KEY, pos) (dev_codes virtual_device) ->
  forallb (declared virtual_device) (snd (hat_axis neg pos hat value)) = true.
Proof.
  intros Hn Hp. unfold hat_axis. cbn [snd]. rewrite forallb_app.
  pose proof (declared_key neg) as Dn. pose proof (declared_key pos) as Dp.
  destruct (negb (hat =? 0) && negb (hat =? value)), (negb (value =? 0));
    destruct (hat <? 0), (value <? 0); cbn [forallb andb];
    rewrite ?Dn, ?Dp by assumption; reflexivity.
Qed.

Lemma trigger_latch_declared (key value : Z) (z : bool) :
  In (EV_KEY, key) (dev_codes virtual_device) ->
  forallb (declared virtual_device) (snd (trigger_latch key value z)) = true.
Proof.
  intros Hk. rewrite trigger_latch_cases. pose proof (declared_key key) as D.
  destruct z; [destruct (value <? z_up_threshold) | destruct (value >? z_down_threshold)];
    cbn [snd forallb andb]; rewrite ?D by assumption; reflexivity.
Qed.

Lemma button_writes_declared (code value : Z) :
  forallb (declared virtual_device) (button_writes code value) = true.
Proof.
  unfold button_writes.
  repeat match goal with
         | |- context [if ?c then _ else _] =>
             destruct c;
             [cbn [forallb andb]; rewrite ?declared_key by in_codes; reflexivity|]
         end.
  reflexivity.
Qed.

Lemma handle_event_declared (st : session) (ev : event) :
  forallb (declared virtual_device) (snd (handle_event st ev)) = true.
Proof.
  unfold handle_event.
  destruct (ev_type ev =? EV_ABS).
  - unfold on_abs.
    pose proof (hat_axis_declared KEY_LEFT KEY_RIGHT (hat0x st) (ev_value ev)
                  ltac:(in_codes) ltac:(in_codes)) as Hx.
    pose proof (hat_axis_declared KEY_UP KEY_DOWN (hat0y st) (ev_value ev)
                  ltac:(in_codes) ltac:(in_codes)) as Hy.
    pose proof (trigger_latch_declared KEY_LEFTCTRL (ev_value ev) (lz st)
                  ltac:(in_codes)) as Hl.
    pose proof (trigger_latch_declared KEY_LEFTSHIFT (ev_value ev) (rz st)
                  ltac:(in_codes)) as Hr.
    destruct (hat_axis KEY_LEFT KEY_RIGHT _ _), (hat_axis KEY_UP KEY_DOWN _ _),
      (trigger_latch KEY_LEFTCTRL _ _), (trigger_latch KEY_LEFTSHIFT _ _).
    repeat match goal with
           | |- context [if ?c then _ else _] => destruct c; [assumption || reflexivity|]
           end.
    reflexivity.
  - destruct (ev_type ev =? EV_KEY); [|reflexivity].
    cbn [snd]. unfold on_key. rewrite forallb_app, button_writes_declared. reflexivity.
Qed.

Lemma emit_declared (dlx dly drx dry : Z) :
  forallb (declared virtual_device) (emit_pointer dlx dly ++ emit_scroll drx dry) = true.
Proof.
  rewrite forallb_app. unfold emit_pointer, emit_scroll.
  destruct (negb (dlx =? 0) || negb (dly =? 0)), (negb (drx =? 0) || negb (dry =? 0));
    try destruct (c_abs drx >? c_abs dry); cbn [forallb andb];
    rewrite ?declared_rel by in_codes; reflexivity.
Qed.

(** X7: the session never writes an event the virtual device was not
    created to carry: every write of a pass of the loop is a batch marker
    or has a type and code that [create_virtual_device] enabled. *)
Theorem writes_are_declared pow (st st' : session) (now : Z) (p : poll_result)
        (rc : Z) (ev : event) (out : list event) :
  iteration pow st now p rc ev = Continue st' out ->
  forallb (declared virtual_device) out = true.
Proof.
  intros H.
  destruct (iteration_continue pow st st' now p rc ev out H)
    as (_ & _ & st1 & out1 & out2 & Hev & Hre & ->).
  destruct (recompute_inv pow st1 st' _ out2 Hre) as (-> & _).
  rewrite forallb_app, emit_declared, andb_true_r.
  destruct Hev as [(_ & _ & E)|(_ & _ & ->)]; [|reflexivity].
  pose proof (handle_event_declared (clocked st now) ev) as D.
  rewrite E in D. exact D.
Qed.

Lemma writes_are_declared_witness :
  exists st' out,
    iteration pow_iter both_sticks 20000000 (Poll 1 0 1) 0 (Event EV_KEY BTN_START 1)
      = Continue st' out /\
    forallb (declared virtual_device) out = true.
Proof.
  destruct (iteration pow_iter both_sticks 20000000 (Poll 1 0 1) 0 (Event EV_KEY BTN_START 1))
    as [st' out| | | |] eqn:E; try (vm_compute in E; discriminate E).
  exists st', out. split; [reflexivity|].
  apply (writes_are_declared pow_iter both_sticks st' 20000000 (Poll 1 0 1) 0
           (Event EV_KEY BTN_START 1) out E).
Defined.

(** ** Batches *)

Lemma is_syn_report_eq (e : event) : is_syn_report e = true <-> e = syn_report.
Proof.
  unfold is_syn_report, event_eqb. destruct e as [t c v]. cbn.
  rewrite !andb_true_iff, !Z.eqb_eq. split.
  - intros [[-> ->] ->]. reflexivity.
  - intros H. injection H as -> -> ->. auto.
Qed.

Lemma batches_aux_closed (cur pre : list event) :
  snd (batches_aux cur (pre ++ [syn_report])) = [].
Proof.
  revert cur. induction pre as [|e pre IH]; intros cur; cbn [app batches_aux].
  - change (is_syn_report syn_report) with true. reflexivity.
  - destruct (is_syn_report e).
    + specialize (IH []). destruct (batches_aux [] (pre ++ [syn_report])) as [bs tl].
      exact IH.
    + apply IH.
Qed.

Lemma closed_log_app (a b : list event) :
  closed_log a -> closed_log b -> closed_log (a ++ b).
Proof.
  intros Ha [->|[pre ->]].
  - rewrite app_nil_r. exact Ha.
  - right. exists (a ++ pre). rewrite app_assoc. reflexivity.
Qed.

Lemma closed_log_boundary (out : list event) :
  closed_log out -> at_batch_boundary out.
Proof.
  intros [->|[pre ->]]; [reflexivity | apply batches_aux_closed].
Qed.

Lemma closed_one (e : event) : closed_log [e; syn_report].
Proof. right. exists [e]. reflexivity. Qed.

Lemma closed_two (e1 e2 : event) : closed_log [e1; e2; syn_report].
Proof. right. exists [e1; e2]. reflexivity. Qed.

Lemma closed_nil : closed_log [].
Proof. left. reflexivity. Qed.

Lemma hat_axis_closed (neg pos hat value : Z) :
  closed_log (snd (hat_axis neg pos hat value)).
Proof.
  unfold hat_axis. cbn [snd]. apply closed_log_app.
  - destruct (_ && _); [apply closed_one | apply closed_nil].
  - destruct (negb _); [apply closed_one | apply closed_nil].
Qed.

Lemma trigger_latch_closed (key value : Z) (z : bool) :
  closed_log (snd (trigger_latch key value z)).
Proof.
  rewrite trigger_latch_cases.
  destruct z; [destruct (value <? z_up_threshold) | destruct (value >? z_down_threshold)];
    cbn [snd]; (apply closed_one || apply closed_nil).
Qed.

Lemma handle_event_closed (st : session) (ev : event) :
  closed_log (snd (handle_event st ev)).
Proof.
  unfold handle_event.
  destruct (ev_type ev =? EV_ABS).
  - unfold on_abs.
    pose proof (hat_axis_closed KEY_LEFT KEY_RIGHT (hat0x st) (ev_value ev)) as Hx.
    pose proof (hat_axis_closed KEY_UP KEY_DOWN (hat0y st) (ev_value ev)) as Hy.
    pose proof (trigger_latch_closed KEY_LEFTCTRL (ev_value ev) (lz st)) as Hl.
    pose proof (trigger_latch_closed KEY_LEFTSHIFT (ev_value ev) (rz st)) as Hr.
    destruct (hat_axis KEY_LEFT KEY_RIGHT _ _), (hat_axis KEY_UP KEY_DOWN _ _),
      (trigger_latch KEY_LEFTCTRL _ _), (trigger_latch KEY_LEFTSHIFT _ _).
    repeat match goal with
           | |- context [if ?c then _ else _] =>
               destruct c; [assumption || apply closed_nil|]
           end.
    apply closed_nil.
  - destruct (ev_type ev =? EV_KEY); [|apply closed_nil].
    cbn [snd]. unfold on_key. right. eexists. reflexivity.
Qed.

Lemma emit_closed (dlx dly drx dry : Z) :
  closed_log (emit_pointer dlx dly ++ emit_scroll drx dry).
Proof.
  apply closed_log_app.
  - unfold emit_pointer. destruct (_ || _); [apply closed_two | apply closed_nil].
  - unfold emit_scroll. destruct (_ || _); [apply closed_one | apply closed_nil].
Qed.

(** X8: every pass of the session loop leaves the sink at a batch
    boundary: whatever the input event and the stick positions, the writes
    of a pass are empty or end in a [SYN_REPORT], so no event is ever left
    waiting for a marker that a later pass would have to supply. *)
Theorem pass_ends_at_batch_boundary pow (st st' : session) (now : Z)
        (p : poll_result) (rc : Z) (ev : event) (out : list event) :
  iteration pow st now p rc ev = Continue st' out ->
  at_batch_boundary out /\
  (out = [] \/ exists pre, out = pre ++ [syn_report]).
Proof.
  intros H.
  assert (C : closed_log out).
  { destruct (iteration_continue pow st st' now p rc ev out H)
      as (_ & _ & st1 & out1 & out2 & Hev & Hre & ->).
    destruct (recompute_inv pow st1 st' _ out2 Hre) as (-> & _).
    apply closed_log_app; [|apply emit_closed].
    destruct Hev as [(_ & _ & E)|(_ & _ & ->)]; [|apply closed_nil].
    pose proof (handle_event_closed (clocked st now) ev) as D.
    rewrite E in D. exact D. }
  split; [apply closed_log_boundary; exact C | exact C].
Qed.

Lemma pass_ends_at_batch_boundary_witness :
  exists st' out,
    iteration pow_iter both_sticks 20000000 (Poll 1 0 1) 0 (Event EV_ABS ABS_HAT0X (-1))
      = Continue st' out /\
    length out = 7%nat /\ at_batch_boundary out.
Proof.
  destruct (iteration pow_iter both_sticks 20000000 (Poll 1 0 1) 0 (Event EV_ABS ABS_HAT0X (-1)))
    as [st' out| | | |] eqn:E; try (vm_compute in E; discriminate E).
  exists st', out. split; [reflexivity|]. split.
  - vm_compute in E. injection E as _ <-. reflexivity.
  - apply (pass_ends_at_batch_boundary pow_iter both_sticks st' 20000000 (Poll 1 0 1) 0
             (Event EV_ABS ABS_HAT0X (-1)) out E).
Defined.

(** ** Key state across a whole session *)

Lemma key_down_app (k : Z) (d : bool) (a b : list event) :
  key_down k d (a ++ b) = key_down k (key_down k d a) b.
Proof.
  revert d. induction a as [|e a IH]; intros d; cbn [app key_down]; [reflexivity|].
  destruct (is_key_event e && (ev_code e =? k)); apply IH.
Qed.

Lemma never_both_down_app (k1 k2 : Z) (d1 d2 : bool) (a b : list event) :
  never_both_down k1 k2 d1 d2 (a ++ b) =
  never_both_down k1 k2 d1 d2 a &&
  never_both_down k1 k2 (key_down k1 d1 a) (key_down k2 d2 a) b.
Proof.
  revert d1 d2. induction a as [|e a IH]; intros d1 d2; cbn [app never_both_down].
  - cbn [key_down]. destruct b; cbn [never_both_down];
      destruct (negb (d1 && d2)); reflexivity.
  - rewrite IH. cbn [key_down].
    destruct (is_key_event e && (ev_code e =? k1)), (is_key_event e && (ev_code e =? k2));
      cbn [key_down]; rewrite andb_assoc; reflexivity.
Qed.

Lemma leaves_key_down (k : Z) (d : bool) (out : list event) :
  leaves_key k out -> key_down k d out = d.
Proof.
  unfold leaves_key. induction out as [|e out IH]; cbn [forallb key_down]; [reflexivity|].
  intros H. apply andb_prop in H as [He Ho].
  apply negb_true_iff in He. rewrite He. apply IH. exact Ho.
Qed.

Lemma leaves_never_both (k1 k2 : Z) (d1 d2 : bool) (out : list event) :
  leaves_key k1 out -> leaves_key k2 out ->
  never_both_down k1 k2 d1 d2 out = negb (d1 && d2).
Proof.
  unfold leaves_key. revert d1 d2.
  induction out as [|e out IH]; intros d1 d2; cbn [forallb never_both_down].
  - intros _ _. apply andb_true_r.
  - intros H1 H2. apply andb_prop in H1 as [He1 Ho1]. apply andb_prop in H2 as [He2 Ho2].
    apply negb_true_iff in He1, He2. cbn [key_down]. rewrite He1, He2. cbn [key_down].
    rewrite IH by assumption. apply andb_diag.
Qed.

Lemma hat_axis_leaves (neg pos k hat value : Z) :
  k <> neg -> k <> pos -> leaves_key k (snd (hat_axis neg pos hat value)).
Proof.
  intros Hn Hp. unfold leaves_key, hat_axis. cbn [snd]. rewrite forallb_app.
  apply Z.eqb_neq in Hn, Hp. rewrite Z.eqb_sym in Hn. rewrite Z.eqb_sym in Hp.
  destruct (negb (hat =? 0) && negb (hat =? value)), (negb (value =? 0));
    destruct (hat <? 0), (value <? 0); cbn; rewrite ?Hn, ?Hp; reflexivity.
Qed.

Lemma trigger_latch_leaves (key k value : Z) (z : bool) :
  k <> key -> leaves_key k (snd (trigger_latch key value z)).
Proof.
  intros Hk. unfold leaves_key. rewrite trigger_latch_cases.
  apply Z.eqb_neq in Hk. rewrite Z.eqb_sym in Hk.
  destruct z; [destruct (value <? z_up_threshold) | destruct (value >? z_down_threshold)];
    cbn; rewrite ?Hk; reflexivity.
Qed.

(** One input event that is not a button event keeps each hat's key pair
    in step with the sign of the hat value. *)
Lemma handle_event_hats (st : session) (ev : event) :
  not_key_input ev = true ->
  let '(st', out) := handle_event st ev in
  (never_both_down KEY_LEFT KEY_RIGHT (hat0x st <? 0) (0 <? hat0x st) out = true /\
   key_down KEY_LEFT (hat0x st <? 0) out = (hat0x st' <? 0) /\
   key_down KEY_RIGHT (0 <? hat0x st) out = (0 <? hat0x st')) /\
  (never_both_down KEY_UP KEY_DOWN (hat0y st <? 0) (0 <? hat0y st) out = true /\
   key_down KEY_UP (hat0y st <? 0) out = (hat0y st' <? 0) /\
   key_down KEY_DOWN (0 <? hat0y st) out = (0 <? hat0y st')).
Proof.
  intros Hk. unfold not_key_input in Hk. apply negb_true_iff in Hk.
  assert (Excl : forall h, negb ((h <? 0) && (0 <? h)) = true).
  { intros h. destruct (Z.ltb_spec h 0), (Z.ltb_spec 0 h); try reflexivity; lia. }
  assert (Same : forall (k1 k2 h : Z) (out : list event),
             leaves_key k1 out -> leaves_key k2 out ->
             never_both_down k1 k2 (h <? 0) (0 <? h) out = true /\
             key_down k1 (h <? 0) out = (h <? 0) /\
             key_down k2 (0 <? h) out = (0 <? h)).
  { intros k1 k2 h out L1 L2.
    rewrite (leaves_never_both k1 k2 _ _ out L1 L2), !leaves_key_down by assumption.
    auto. }
  assert (Nil : forall k, leaves_key k []) by reflexivity.
  unfold handle_event. rewrite Hk.
  destruct (ev_type ev =? EV_ABS); [|cbn [hat0x hat0y]; split; apply Same; apply Nil].
  unfold on_abs.
  pose proof (hat_axis_exclusive KEY_LEFT KEY_RIGHT (hat0x st) (ev_value ev)
                ltac:(discriminate)) as Hx.
  pose proof (hat_axis_exclusive KEY_UP KEY_DOWN (hat0y st) (ev_value ev)
                ltac:(discriminate)) as Hy.
  pose proof (fun k Hn Hp => hat_axis_leaves KEY_LEFT KEY_RIGHT k (hat0x st) (ev_value ev) Hn Hp)
    as Lx.
  pose proof (fun k Hn Hp => hat_axis_leaves KEY_UP KEY_DOWN k (hat0y st) (ev_value ev) Hn Hp)
    as Ly.
  pose proof (fun k Hn => trigger_latch_leaves KEY_LEFTCTRL k (ev_value ev) (lz st) Hn) as Ll.
  pose proof (fun k Hn => trigger_latch_leaves KEY_LEFTSHIFT k (ev_value ev) (rz st) Hn) as Lr.
  cbv zeta in Hx, Hy.
  destruct (hat_axis KEY_LEFT KEY_RIGHT _ _) as [hx ox],
    (hat_axis KEY_UP KEY_DOWN _ _) as [hy oy],
    (trigger_latch KEY_LEFTCTRL _ _) as [zl ol],
    (trigger_latch KEY_LEFTSHIFT _ _) as [zr or].
  cbn [snd] in Lx, Ly, Ll, Lr.
  repeat match goal with
         | |- context [if ?c then _ else _] => destruct c
         end; cbn [hat0x hat0y];
    (split;
     [ first [ exact Hx | apply Same; first [apply Nil | apply Ly | apply Ll | apply Lr]; discriminate ]
     | first [ exact Hy | apply Same; first [apply Nil | apply Lx | apply Ll | apply Lr]; discriminate ] ]).
Qed.

(** X9: as long as the pad sends no button events, the arrow keys of a
    hat axis are never down together, at any point of the write log, and
    at the end of any sequence of input events exactly the key of the
    sign of the hat value is down: left or right for [hat0x], up or down
    for [hat0y], none when the hat is centred.  Stick, trigger and other
    hat events in between do not disturb it. *)
Theorem hat_keys_follow_sign (now : Z) (evs : list event) :
  forallb not_key_input evs = true ->
  let '(st, out) := handle_events (init_session now) evs in
  never_both_down KEY_LEFT KEY_RIGHT false false out = true /\
  never_both_down KEY_UP KEY_DOWN false false out = true /\
  key_down KEY_LEFT false out = (hat0x st <? 0) /\
  key_down KEY_RIGHT false out = (0 <? hat0x st) /\
  key_down KEY_UP false out = (hat0y st <? 0) /\
  key_down KEY_DOWN false out = (0 <? hat0y st).
Proof.
  intros Hk.
  assert (G : forall st0,
             let '(st, out) := handle_events st0 evs in
             (never_both_down KEY_LEFT KEY_RIGHT (hat0x st0 <? 0) (0 <? hat0x st0) out = true /\
              key_down KEY_LEFT (hat0x st0 <? 0) out = (hat0x st <? 0) /\
              key_down KEY_RIGHT (0 <? hat0x st0) out = (0 <? hat0x st)) /\
             (never_both_down KEY_UP KEY_DOWN (hat0y st0 <? 0) (0 <? hat0y st0) out = true /\
              key_down KEY_UP (hat0y st0 <? 0) out = (hat0y st <? 0) /\
              key_down KEY_DOWN (0 <? hat0y st0) out = (0 <? hat0y st))).
  { induction evs as [|ev evs IH]; intros st0; cbn [handle_events].
    - assert (E : forall h, negb ((h <? 0) && (0 <? h)) = true).
      { intros h. destruct (Z.ltb_spec h 0), (Z.ltb_spec 0 h); try reflexivity; lia. }
      cbn [never_both_down key_down]. rewrite !E. auto.
    - cbn [forallb] in Hk. apply andb_prop in Hk as [Hev Hrest].
      pose proof (handle_event_hats st0 ev Hev) as H1.
      destruct (handle_event st0 ev) as [st1 out1].
      specialize (IH Hrest st1).
      destruct (handle_events st1 evs) as [st2 out2].
      destruct H1 as [(A1 & A2 & A3) (B1 & B2 & B3)].
      destruct IH as [(C1 & C2 & C3) (D1 & D2 & D3)].
      rewrite !never_both_down_app, !key_down_app.
      rewrite A1, A2, A3, B1, B2, B3, C1, C2, C3, D1, D2, D3. auto. }
  specialize (G (init_session now)).
  destruct (handle_events (init_session now) evs) as [st out].
  cbn [init_session hat0x hat0y] in G. cbn in G.
  destruct G as [(A1 & A2 & A3) (B1 & B2 & B3)].
  repeat split; assumption.
Qed.

Lemma hat_keys_follow_sign_witness :
  let evs := [Event EV_ABS ABS_HAT0X 1; Event EV_ABS ABS_Z 600;
              Event EV_ABS ABS_HAT0Y (-1); Event EV_ABS ABS_HAT0X (-1)] in
  never_both_down KEY_LEFT KEY_RIGHT false false (snd (handle_events (init_session 0) evs)) = true /\
  key_down KEY_LEFT false (snd (handle_events (init_session 0) evs)) = true.
Proof.
  cbv zeta.
  pose proof (hat_keys_follow_sign 0
                [Event EV_ABS ABS_HAT0X 1; Event EV_ABS ABS_Z 600;
                 Event EV_ABS ABS_HAT0Y (-1); Event EV_ABS ABS_HAT0X (-1)] eq_refl) as H.
  destruct (handle_events _ _) as [st out] eqn:E.
  destruct H as (H1 & _ & H3 & _).
  cbn [snd]. split; [exact H1|]. rewrite H3.
  vm_compute in E. injection E as <- _. reflexivity.
Defined.

Lemma button_writes_leave_ctrl (code value : Z) :
  leaves_key KEY_LEFTCTRL (button_writes code value).
Proof.
  unfold leaves_key, button_writes.
  repeat match goal with
         | |- context [if ?c then _ else _] => destruct c; [reflexivity|]
         end.
  reflexivity.
Qed.

Lemma handle_event_ctrl (st : session) (ev : event) :
  key_down KEY_LEFTCTRL (lz st) (snd (handle_event st ev)) = lz (fst (handle_event st ev)).
Proof.
  unfold handle_event.
  destruct (ev_type ev =? EV_ABS).
  - unfold on_abs.
    pose proof (hat_axis_leaves KEY_LEFT KEY_RIGHT KEY_LEFTCTRL (hat0x st) (ev_value ev)
                  ltac:(discriminate) ltac:(discriminate)) as Lx.
    pose proof (hat_axis_leaves KEY_UP KEY_DOWN KEY_LEFTCTRL (hat0y st) (ev_value ev)
                  ltac:(discriminate) ltac:(discriminate)) as Ly.
    pose proof (trigger_latch_leaves KEY_LEFTSHIFT KEY_LEFTCTRL (ev_value ev) (rz st)
                  ltac:(discriminate)) as Lr.
    assert (Hl : key_down KEY_LEFTCTRL (lz st)
                   (snd (trigger_latch KEY_LEFTCTRL (ev_value ev) (lz st))) =
                 fst (trigger_latch KEY_LEFTCTRL (ev_value ev) (lz st))).
    { rewrite trigger_latch_cases.
      destruct (lz st); [destruct (ev_value ev <? z_up_threshold)
                        | destruct (ev_value ev >? z_down_threshold)]; reflexivity. }
    destruct (hat_axis KEY_LEFT KEY_RIGHT _ _) as [hx ox],
      (hat_axis KEY_UP KEY_DOWN _ _) as [hy oy],
      (trigger_latch KEY_LEFTCTRL _ _) as [zl ol],
      (trigger_latch KEY_LEFTSHIFT _ _) as [zr or].
    cbn [fst snd] in *.
    repeat match goal with
           | |- context [if ?c then _ else _] => destruct c
           end; cbn [fst snd lz];
      first [ exact Hl | apply leaves_key_down; assumption | reflexivity ].
  - destruct (ev_type ev =? EV_KEY); [|reflexivity].
    cbn [fst snd]. unfold on_key. rewrite key_down_app.
    rewrite (leaves_key_down _ _ _ (button_writes_leave_ctrl _ _)). reflexivity.
Qed.

(** X10: the left-control key seen by a consumer of the sink is the left
    trigger's latch: after any sequence of input events of a session,
    buttons included, [KEY_LEFTCTRL] is down exactly when the flag [lz]
    is set, because only the [ABS_Z] case ever writes that key. *)
Theorem left_ctrl_is_latch (now : Z) (evs : list event) :
  let '(st, out) := handle_events (init_session now) evs in
  key_down KEY_LEFTCTRL false out = lz st.
Proof.
  assert (G : forall st0,
             key_down KEY_LEFTCTRL (lz st0) (snd (handle_events st0 evs)) =
             lz (fst (handle_events st0 evs))).
  { induction evs as [|ev evs IH]; intros st0; cbn [handle_events]; [reflexivity|].
    pose proof (handle_event_ctrl st0 ev) as H1.
    destruct (handle_event st0 ev) as [st1 out1].
    specialize (IH st1).
    destruct (handle_events st1 evs) as [st2 out2].
    cbn [fst snd] in *. rewrite key_down_app, H1. exact IH. }
  specialize (G (init_session now)).
  destruct (handle_events (init_session now) evs) as [st out]. exact G.
Qed.

(** ** Motion and the next wait *)

Lemma hat_axis_no_rel (neg pos hat value : Z) :
  existsb is_rel_event (snd (hat_axis neg pos hat value)) = false.
Proof.
  unfold hat_axis. cbn [snd]. rewrite existsb_app.
  destruct (negb (hat =? 0) && negb (hat =? value)), (negb (value =? 0)); reflexivity.
Qed.

Lemma trigger_latch_no_rel (key value : Z) (z : bool) :
  existsb is_rel_event (snd (trigger_latch key value z)) = false.
Proof.
  rewrite trigger_latch_cases.
  destruct z; [destruct (value <? z_up_threshold) | destruct (value >? z_down_threshold)];
    reflexivity.
Qed.

(** An input event moves neither the pointer nor the wheel by itself, and
    does not touch the clock. *)
Lemma handle_event_no_rel (st : session) (ev : event) :
  existsb is_rel_event (snd (handle_event st ev)) = false /\
  last_time (fst (handle_event st ev)) = last_time st.
Proof.
  unfold handle_event.
  destruct (ev_type ev =? EV_ABS).
  - unfold on_abs.
    pose proof (hat_axis_no_rel KEY_LEFT KEY_RIGHT (hat0x st) (ev_value ev)) as Hx.
    pose proof (hat_axis_no_rel KEY_UP KEY_DOWN (hat0y st) (ev_value ev)) as Hy.
    pose proof (trigger_latch_no_rel KEY_LEFTCTRL (ev_value ev) (lz st)) as Hl.
    pose proof (trigger_latch_no_rel KEY_LEFTSHIFT (ev_value ev) (rz st)) as Hr.
    destruct (hat_axis KEY_LEFT KEY_RIGHT _ _), (hat_axis KEY_UP KEY_DOWN _ _),
      (trigger_latch KEY_LEFTCTRL _ _), (trigger_latch KEY_LEFTSHIFT _ _).
    cbn [snd] in *.
    repeat match goal with
           | |- context [if ?c then _ else _] => destruct c
           end; cbn [fst snd last_time]; auto.
  - destruct (ev_type ev =? EV_KEY); [|auto].
    cbn [fst snd]. split; [|reflexivity].
    unfold on_key. rewrite existsb_app, button_writes_shape.
    induction (map ev_code (button_writes (ev_code ev) 0)); cbn; auto.
Qed.

Lemma emit_rel (dlx dly drx dry : Z) :
  existsb is_rel_event (emit_pointer dlx dly ++ emit_scroll drx dry) =
  negb (dlx =? 0) || negb (dly =? 0) || negb (drx =? 0) || negb (dry =? 0).
Proof.
  rewrite existsb_app. unfold emit_pointer, emit_scroll.
  destruct (dlx =? 0), (dly =? 0), (drx =? 0), (dry =? 0); cbn [negb orb];
    try destruct (c_abs drx >? c_abs dry); reflexivity.
Qed.

(** X11: a pass of the session loop shortens the next wait exactly when
    it wrote motion: the next [poll] has the 20 ms timeout if the pass
    wrote a pointer or wheel event, and has no timeout otherwise; in both
    cases the pass leaves the clock at the time just read. *)
Theorem motion_keeps_polling pow (st st' : session) (now : Z) (p : poll_result)
        (rc : Z) (ev : event) (out : list event) :
  iteration pow st now p rc ev = Continue st' out ->
  (poll_timeout st' = 20 <-> existsb is_rel_event out = true) /\
  (poll_timeout st' = -1 <-> existsb is_rel_event out = false) /\
  last_time st' = now.
Proof.
  intros H.
  destruct (iteration_continue pow st st' now p rc ev out H)
    as (_ & _ & st1 & out1 & out2 & Hev & Hre & ->).
  destruct (recompute_inv pow st1 st' _ out2 Hre)
    as (-> & _ & _ & _ & _ & _ & _ & _ & _ & _ & _ & _ & _ & Ht).
  assert (H1 : existsb is_rel_event out1 = false /\ last_time st1 = now).
  { destruct Hev as [(_ & _ & E)|(_ & -> & ->)]; [|auto].
    pose proof (handle_event_no_rel (clocked st now) ev) as D.
    rewrite E in D. exact D. }
  destruct H1 as [H1 H2].
  rewrite existsb_app, H1, emit_rel. cbn [orb].
  unfold poll_timeout.
  destruct (negb (slx st' =? 0) || negb (sly st' =? 0) ||
            negb (srx st' =? 0) || negb (sry st' =? 0)).
  - repeat split; try reflexivity; try discriminate; congruence.
  - repeat split; try reflexivity; try discriminate; congruence.
Qed.

Lemma motion_keeps_polling_witness :
  exists st' out,
    iteration pow_iter both_sticks 20000000 (Poll 0 0 0) 0 syn_report = Continue st' out /\
    poll_timeout st' = 20.
Proof.
  destruct (iteration pow_iter both_sticks 20000000 (Poll 0 0 0) 0 syn_report)
    as [st' out| | | |] eqn:E; try (vm_compute in E; discriminate E).
  exists st', out. split; [reflexivity|].
  apply (motion_keeps_polling pow_iter both_sticks st' 20000000 (Poll 0 0 0) 0 syn_report out E).
  vm_compute in E. injection E as _ <-. reflexivity.
Defined.

(** ** More on the accelerator *)

(** X12: the accelerator is zero at rest.  With no time elapsed the delta
    is 0 for every stick value. With the stick centred, the delta is 0 for
    every elapsed time provided [pow] returned a finite value; when [pow]
    returned an infinity or a NaN, the product with the stick value 0 is a
    NaN and the conversion to an integer is left undefined by C. *)
Theorem axis_accelerator_zero pow (P : accel) :
  stick P ->
  (forall v a, scaled pow P v = Some a -> axis_delta pow P v 0 = Some 0) /\
  (forall dt,
     match pow (base P) (double_of_int (exponent P 0)) with
     | S754_nan | S754_infinity _ => axis_delta pow P 0 dt = None
     | S754_zero _ | S754_finite _ _ _ => axis_delta pow P 0 dt = Some 0
     end).
Proof.
  intros HP. split.
  - intros v a Ha.
    destruct (axis_delta_value pow P v 0 a HP Ha) as [E _].
    rewrite E, Z.mul_0_r. reflexivity.
  - intros dt.
    assert (S : scaled pow P 0 =
                int64_of_double
                  (double_mul (pow (base P) (double_of_int (exponent P 0)))
                              (S754_zero false))) by reflexivity.
    destruct (pow (base P) (double_of_int (exponent P 0))) as [s|s| |s m e];
      cbn in S.
    + destruct (axis_delta_value pow P 0 dt 0 HP S) as [E _]. rewrite E. reflexivity.
    + unfold axis_delta. rewrite S. reflexivity.
    + unfold axis_delta. rewrite S. reflexivity.
    + destruct (axis_delta_value pow P 0 dt 0 HP S) as [E _]. rewrite E. reflexivity.
Qed.

Lemma axis_accelerator_zero_witness :
  axis_delta pow_iter lparams 32767 0 = Some 0 /\
  axis_delta pow_iter rparams 0 20000000 = Some 0.
Proof.
  split.
  - apply (proj1 (axis_accelerator_zero pow_iter lparams (or_introl eq_refl)) 32767 52304).
    vm_compute. reflexivity.
  - pose proof (proj2 (axis_accelerator_zero pow_iter rparams (or_intror eq_refl)) 20000000) as H.
    vm_compute in H. vm_compute. exact H.
Defined.

(** X13: every delta fits an [int] with room to spare: whatever the stick
    value, the elapsed time and the result of [pow], and even when the
    64-bit product has wrapped around, a computed delta is at most
    2^27 times the stick's multiplier in magnitude, so neither the final
    conversion to [int] nor the negation of the horizontal wheel delta can
    overflow. *)
Theorem axis_delta_fits_int pow (P : accel) (v dt d : Z) :
  stick P ->
  axis_delta pow P v dt = Some d ->
  Z.abs d <= 2 ^ 27 * mul P /\ int32 d = d /\ int32 (- d) = - d.
Proof.
  intros HP H.
  destruct (stick_consts P HP) as (_ & _ & _ & Hm).
  destruct (scaled pow P v) as [a|] eqn:Ha.
  2:{ unfold axis_delta in H. rewrite Ha in H. discriminate H. }
  destruct (axis_delta_value pow P v dt a HP Ha) as [E _].
  rewrite E in H. injection H as <-.
  pose proof (int64_range (a * dt)) as Hr. unfold INT64_MIN, INT64_MAX in Hr.
  assert (Hq : Z.abs (Z.quot (int64 (a * dt)) (2 ^ 36)) <= 2 ^ 27)
    by (apply quot_bound; lia).
  assert (B : Z.abs (Z.quot (int64 (a * dt)) (2 ^ 36) * mul P) <= 2 ^ 27 * mul P).
  { rewrite Z.abs_mul, (Z.abs_eq (mul P)) by lia.
    apply Z.mul_le_mono_nonneg_r; lia. }
  split; [exact B|].
  split; apply int32_small; lia.
Qed.

Lemma axis_delta_fits_int_witness :
  Z.abs (- 2 ^ 27) <= 2 ^ 27 * mul lparams.
Proof.
  apply (axis_delta_fits_int pow_iter lparams 8192 (2 ^ 50) (- 2 ^ 27)).
  - left. reflexivity.
  - vm_compute. reflexivity.
Defined.

(** X14: the scroll stick counts twice: for the same stick value and the
    same elapsed time, the delta of the scroll stick's parameters is
    exactly twice the delta of the movement stick's, whatever [pow]
    returns and whether or not the 64-bit product wraps. *)
Theorem scroll_stick_doubles pow (v dt : Z) :
  axis_delta pow rparams v dt = option_map (Z.mul 2) (axis_delta pow lparams v dt).
Proof.
  assert (S : scaled pow rparams v = scaled pow lparams v) by reflexivity.
  destruct (scaled pow lparams v) as [a|] eqn:Ha.
  - destruct (axis_delta_value pow lparams v dt a (or_introl eq_refl) Ha) as [El _].
    destruct (axis_delta_value pow rparams v dt a (or_intror eq_refl) S) as [Er _].
    rewrite El, Er. cbn [option_map mul lparams rparams]. f_equal. lia.
  - unfold axis_delta. rewrite S, Ha. reflexivity.
Qed.

(** X15: below one unit the motion is dropped, not carried over: as long
    as the product of the scaled value [a] and the elapsed time does not
    overflow, the delta is the truncated quotient of that product by 2^36
    times the multiplier, and it is 0 exactly when the magnitude of the
    product is below 2^36. *)
Theorem axis_delta_quantised pow (P : accel) (v dt a : Z) :
  stick P ->
  scaled pow P v = Some a ->
  Z.abs a * Z.abs dt <= INT64_MAX ->
  axis_delta pow P v dt = Some (Z.quot (a * dt) (2 ^ 36) * mul P) /\
  (axis_delta pow P v dt = Some 0 <-> Z.abs (a * dt) < 2 ^ 36).
Proof.
  intros HP Ha Hmax.
  destruct (stick_consts P HP) as (_ & _ & _ & Hm).
  destruct (axis_delta_value pow P v dt a HP Ha) as [E _].
  assert (Hs : int64 (a * dt) = a * dt).
  { apply int64_small. rewrite <- Z.abs_mul in Hmax.
    unfold INT64_MIN, INT64_MAX in *. lia. }
  rewrite Hs in E. rewrite E. split; [reflexivity|].
  pose proof (Z.quot_small_iff (a * dt) (2 ^ 36) ltac:(lia)) as Q.
  rewrite (Z.abs_eq (2 ^ 36)) in Q by lia.
  split.
  - intros H. injection H as H. apply Q. nia.
  - intros H. apply Q in H. rewrite H. reflexivity.
Qed.

Lemma axis_delta_quantised_witness :
  axis_delta pow_iter lparams 3000 20000000 = Some 0 /\
  axis_delta pow_iter lparams 32767 20000000 = Some (Z.quot (52304 * 20000000) (2 ^ 36) * 1).
Proof.
  split.
  - apply (proj2 (axis_delta_quantised pow_iter lparams 3000 20000000 2715
                    (or_introl eq_refl) ltac:(vm_compute; reflexivity)
                    ltac:(vm_compute; discriminate))).
    vm_compute. reflexivity.
  - apply (proj1 (axis_delta_quantised pow_iter lparams 32767 20000000 52304
                    (or_introl eq_refl) ltac:(vm_compute; reflexivity)
                    ltac:(vm_compute; discriminate))).
Defined.

(** X16: the exponent handed to [pow].  For every stick value that is an
    [int] other than [INT_MIN] it is the truncated quotient of
    [|v| - 8192] by 512: it is even in [v], never below -16, at most 48
    on a 16-bit stick, negative exactly when [|v| <= 7680], and 0 on the
    whole band [7681 <= |v| <= 8703] around the dead-zone threshold. *)
Theorem exponent_range (P : accel) (v : Z) :
  stick P -> Z.abs v < 2 ^ 31 ->
  exponent P v = Z.quot (Z.abs v - 8192) 512 /\
  exponent P (- v) = exponent P v /\
  -16 <= exponent P v /\
  (Z.abs v <= 32768 -> exponent P v <= 48) /\
  (exponent P v < 0 <-> Z.abs v <= 7680) /\
  (exponent P v = 0 <-> 7681 <= Z.abs v <= 8703).
Proof.
  intros HP Hv. destruct (stick_consts P HP) as (Hd & Hs & _).
  assert (E : exponent P v = Z.quot (Z.abs v - 8192) 512).
  { unfold exponent, c_abs. rewrite int32_small by lia. rewrite Hd, Hs. reflexivity. }
  split; [exact E|]. split; [apply exponent_opp|]. rewrite E.
  pose proof (Z.quot_rem' (Z.abs v - 8192) 512) as QR.
  destruct (Z.le_gt_cases 0 (Z.abs v - 8192)) as [Hpos|Hneg].
  - pose proof (Z.rem_bound_pos (Z.abs v - 8192) 512 Hpos ltac:(lia)) as RB.
    repeat split; lia.
  - pose proof (Z.rem_bound_pos_neg (Z.abs v - 8192) 512 ltac:(lia) ltac:(lia)) as RB.
    repeat split; lia.
Qed.

Lemma exponent_range_witness :
  exponent lparams (-8000) = 0 /\ exponent rparams 32767 = 47 /\ exponent lparams 0 = -16.
Proof.
  destruct (exponent_range lparams (-8000) (or_introl eq_refl) ltac:(cbn; lia))
    as (_ & _ & _ & _ & _ & H0).
  split; [apply H0; cbn; lia|].
  destruct (exponent_range rparams 32767 (or_intror eq_refl) ltac:(cbn; lia)) as (E & _).
  split; [rewrite E; reflexivity|].
  destruct (exponent_range lparams 0 (or_introl eq_refl) ltac:(cbn; lia)) as (E0 & _).
  rewrite E0. reflexivity.
Defined.

Lemma product_trunc_nonneg (p : double) (u t : Z) :
  normal_positive p = true -> 0 < u < 2 ^ 53 ->
  double_trunc (double_mul p (double_of_int u)) = Some t -> 0 <= t.
Proof.
  intros N Hu H.
  destruct (normal_positive_inv p N) as (m & e & -> & Hl & He).
  destruct (product_round m e u (e - 52) Hl He Hu (Z.le_refl _)) as (_ & Hr & E).
  set (r := rne _ _) in *. set (c := _ - 52 + (e - 52)) in *.
  rewrite E, double_trunc_rounded in H by exact Hr.
  destruct (_ <=? _); [|discriminate H].
  assert (Ht : Z.shiftl r c = t) by congruence.
  rewrite <- Ht. apply Z.shiftl_nonneg. lia.
Qed.

(** X17: the accelerator keeps the direction of the stick: when [pow]
    returns a positive normal double and the 64-bit product does not
    overflow, the scaled value and the delta are non-negative for a
    non-negative stick value and non-positive for a non-positive one. *)
Theorem axis_accelerator_direction pow (P : accel) (v dt a d : Z) :
  stick P ->
  Z.abs v < 2 ^ 31 ->
  normal_positive (pow (base P) (double_of_int (exponent P v))) = true ->
  scaled pow P v = Some a ->
  0 <= dt -> Z.abs a * dt <= INT64_MAX ->
  axis_delta pow P v dt = Some d ->
  (0 <= v -> 0 <= a /\ 0 <= d) /\ (v <= 0 -> a <= 0 /\ d <= 0).
Proof.
  intros HP Hv N Ha Hdt Hmax Hd.
  destruct (stick_consts P HP) as (_ & _ & _ & Hm).
  assert (Sa : 0 <= Z.sgn v * a /\ (v = 0 -> a = 0)).
  { unfold scaled in Ha. apply int64_of_double_inv in Ha as [T _].
    split.
    - destruct (Z.eq_dec v 0) as [->|Hnz]; [cbn; lia|].
      apply double_trunc_mul_abs in T.
      apply (product_trunc_nonneg _ (Z.abs v) _ N); [lia | exact T].
    - intros ->.
      destruct (normal_positive_inv _ N) as (m & e & Ep & _).
      rewrite Ep in T. cbn in T. injection T as <-. reflexivity. }
  destruct Sa as [Sa Sz].
  destruct (axis_delta_value pow P v dt a HP Ha) as [E _].
  rewrite E in Hd. injection Hd as <-.
  assert (Hs : int64 (a * dt) = a * dt).
  { apply int64_small. unfold INT64_MIN, INT64_MAX in *.
    rewrite <- (Z.abs_eq dt), <- Z.abs_mul in Hmax by lia. lia. }
  rewrite Hs.
  split.
  - intros Hv0.
    assert (0 <= a) by (destruct (Z.eq_dec v 0); [lia | rewrite Z.sgn_pos in Sa; lia]).
    split; [assumption|].
    apply Z.mul_nonneg_nonneg; [|lia].
    apply Z.quot_pos; [apply Z.mul_nonneg_nonneg; lia | lia].
  - intros Hv0.
    assert (a <= 0) by (destruct (Z.eq_dec v 0); [lia | rewrite Z.sgn_neg in Sa; lia]).
    split; [assumption|].
    assert (Z.quot (a * dt) (2 ^ 36) <= 0).
    { replace (a * dt) with (- (- a * dt)) by ring.
      rewrite Z.quot_opp_l by lia.
      assert (0 <= Z.quot (- a * dt) (2 ^ 36)); [|lia].
      apply Z.quot_pos; [apply Z.mul_nonneg_nonneg; lia | lia]. }
    nia.
Qed.

Lemma axis_accelerator_direction_witness :
  (0 <= 52304 /\ 0 <= 15) /\ (- 52304 <= 0 /\ -15 <= 0).
Proof.
  split.
  - apply (proj1 (axis_accelerator_direction pow_iter lparams 32767 20000000 52304 15
                    (or_introl eq_refl) ltac:(cbn; lia) ltac:(vm_compute; reflexivity)
                    ltac:(vm_compute; reflexivity) ltac:(lia) ltac:(vm_compute; discriminate)
                    ltac:(vm_compute; reflexivity))).
    lia.
  - apply (proj2 (axis_accelerator_direction pow_iter lparams (-32767) 20000000 (-52304) (-15)
                    (or_introl eq_refl) ltac:(cbn; lia) ltac:(vm_compute; reflexivity)
                    ltac:(vm_compute; reflexivity) ltac:(lia) ltac:(vm_compute; discriminate)
                    ltac:(vm_compute; reflexivity))).
    lia.
Defined.

(** Multiplying by 1.0 is exact. *)
Lemma double_mul_one_l (m : positive) (e : Z) :
  Z.log2 (Z.pos m) = 52 -> -1074 <= e <= 971 ->
  double_mul double_one (S754_finite false m e) = S754_finite false m e.
Proof.
  intros Hl He. unfold double_mul, double_one. cbn [SFmul xorb].
  pose proof (log2_mantissa_bounds _ Hl) as B.
  pose proof (binary_round_aux_normal (4503599627370496 * m) (-52 + e)) as HR.
  cbv zeta in HR.
  assert (HM : Z.pos (4503599627370496 * m) = Z.pos m * 2 ^ 52).
  { rewrite Pos2Z.inj_mul. change (Z.pos 4503599627370496) with (2 ^ 52). ring. }
  assert (Hn : Z.log2 (Z.pos (4503599627370496 * m)) + 1 - prec = 52).
  { rewrite HM, Z.log2_mul_pow2 by lia. unfold prec. lia. }
  rewrite Hn in HR.
  assert (Hr : rne 52 (Z.pos (4503599627370496 * m)) = Z.pos m).
  { rewrite HM. change 52 with (0 + 52) at 1. rewrite rne_scale by lia.
    unfold rne. cbn zeta. rewrite Z.pow_0_r, Z.mod_1_r, Z.div_1_r. reflexivity. }
  rewrite Hr in HR.
  destruct HR as [_ HR]; [lia | unfold emin, emax, prec; lia |].
  rewrite HR.
  destruct (Z.ltb_spec (Z.pos m) (2 ^ 53)) as [_|]; [|lia].
  replace (-52 + e + 52) with e by lia.
  destruct (Z.leb_spec e (emax - prec)) as [_|H]; [reflexivity|].
  unfold emax, prec in H. lia.
Qed.

(** An [int] that goes through [double] and back is unchanged, also when
    it is multiplied by 1.0 on the way. *)
Lemma scaled_by_one (v : Z) :
  Z.abs v < 2 ^ 53 ->
  int64_of_double (double_mul double_one (double_of_int v)) = Some v.
Proof.
  intros Hv. apply int64_of_double_inv. split.
  2:{ unfold INT64_MIN, INT64_MAX. lia. }
  replace v with (Z.sgn v * Z.abs v) at 2 by (destruct v; cbn; lia).
  apply double_trunc_mul_sign.
  destruct (Z.eq_dec v 0) as [->|Hnz]; [reflexivity|].
  destruct (double_of_int_pos (Z.abs v) ltac:(lia)) as (m & e & E & Hm & He & Hl).
  rewrite E, double_mul_one_l by (assumption || lia).
  cbn [double_trunc]. f_equal.
  rewrite Z.shiftl_div_pow2 by lia. rewrite Hm.
  apply Z.div_mul. apply Z.pow_nonzero; lia.
Qed.

(** X18: around the dead-zone threshold the accelerator is linear: for
    [7681 <= |v| <= 8703] the exponent is 0, for which C requires [pow] to
    return exactly 1; the scaled value is then the stick value itself, and
    without overflow the delta is the truncated quotient of [v * dt] by
    2^36, times the multiplier. *)
Theorem axis_accelerator_linear_band pow (P : accel) (v dt : Z) :
  stick P ->
  pow (base P) (double_of_int 0) = double_one ->
  7681 <= Z.abs v <= 8703 ->
  Z.abs v * Z.abs dt <= INT64_MAX ->
  scaled pow P v = Some v /\
  axis_delta pow P v dt = Some (Z.quot (v * dt) (2 ^ 36) * mul P).
Proof.
  intros HP Hone Hv Hmax.
  assert (Hexp : exponent P v = 0).
  { destruct (stick_consts P HP) as (Hd & Hs & _).
    unfold exponent, c_abs. rewrite int32_small by lia. rewrite Hd, Hs.
    change (2 ^ 13) with 8192. change (2 ^ 9) with 512.
    pose proof (Z.quot_rem' (Z.abs v - 8192) 512) as QR.
    destruct (Z.le_gt_cases 0 (Z.abs v - 8192)) as [Hpos|Hneg].
    - pose proof (Z.rem_bound_pos (Z.abs v - 8192) 512 Hpos ltac:(lia)). lia.
    - pose proof (Z.rem_bound_pos_neg (Z.abs v - 8192) 512 ltac:(lia) ltac:(lia)). lia. }
  assert (Hs : scaled pow P v = Some v).
  { unfold scaled. rewrite Hexp, Hone. apply scaled_by_one. lia. }
  split; [exact Hs|].
  destruct (axis_delta_value pow P v dt v HP Hs) as [E _].
  rewrite E, int64_small; [reflexivity|].
  rewrite <- Z.abs_mul in Hmax. unfold INT64_MIN, INT64_MAX in *. lia.
Qed.

Lemma axis_accelerator_linear_band_witness :
  scaled pow_iter rparams (-8000) = Some (-8000) /\
  axis_delta pow_iter rparams (-8000) 20000000 = Some (-4).
Proof.
  apply (axis_accelerator_linear_band pow_iter rparams (-8000) 20000000
           (or_intror eq_refl) eq_refl); cbn; lia.
Defined.

(** ** The outer loop over whole runs *)

Lemma calm_app (a b : list effect) : calm a -> calm b -> calm (a ++ b).
Proof.
  intros [A1 A2] [B1 B2]. split; intros H; apply in_app_or in H; tauto.
Qed.

Lemma scan_calm (ns : namespace) (n i : nat) :
  calm (snd (scan ns n i)) /\ existsb is_write (snd (scan ns n i)) = false.
Proof.
  revert i. induction n as [|n IH]; intros i; cbn [scan].
  - split; [split; intros []|reflexivity].
  - specialize (IH (S i)). destruct (scan ns n (S i)) as [r t]. cbn [snd] in IH.
    destruct IH as [[C1 C2] W].
    destruct (ns i) as [| |d]; [| |destruct (is_gamepad d)]; cbn [snd];
      (split; [split; cbn [In]; intros H;
               repeat (destruct H as [H|H]; [discriminate H|]); tauto
              | cbn; try exact W; reflexivity]).
Qed.

Lemma find_gamepad_calm (ns : namespace) :
  calm (snd (find_gamepad ns)) /\ existsb is_write (snd (find_gamepad ns)) = false.
Proof.
  exact (scan_calm ns 32 0).
Qed.

Lemma writes_calm (out : list event) : calm (map Write out).
Proof.
  split; intros H; apply in_map_iff in H; destruct H as (e & H & _); discriminate H.
Qed.

Lemma step_effects pow (ph ph' : phase) (s : stimulus) (t : list effect) :
  step pow ph s = Some (ph', t) ->
  (ph' = TERMINATED /\
   exists t0, t = t0 ++ [CloseInotify; DestroyUinput] /\ calm t0 /\
              existsb is_write t = false) \/
  (ph' <> TERMINATED /\ calm t).
Proof.
  assert (Nil : calm []) by (split; intros []).
  destruct ph, s; cbn [step]; try discriminate.
  - pose proof (find_gamepad_calm ns) as [C _].
    destruct (find_gamepad ns) as [[[i d]|] t'];
      intros H; injection H as <- <-; right; split; (discriminate || exact C).
  - destruct (iteration pow st now p rc ev) as [st' out| | | |];
      intros H; injection H as <- <-.
    + right. split; [discriminate | apply writes_calm].
    + left. split; [reflexivity|]. exists [Free gamepad; Close gamepad].
      repeat split; try reflexivity; cbn [In]; intros H;
        repeat (destruct H as [H|H]; [discriminate H|]); exact H.
    + right. split; [discriminate|].
      split; cbn [In]; intros H; repeat (destruct H as [H|H]; [discriminate H|]); exact H.
    + right. split; [discriminate | exact Nil].
    + right. split; [discriminate | exact Nil].
  - destruct (poll_rc p <? 0).
    { intros H; injection H as <- <-. right. split; [discriminate | exact Nil]. }
    destruct (negb (signal_revents p =? 0)).
    { intros H; injection H as <- <-. left. split; [reflexivity|].
      exists []. repeat split; try reflexivity; intros []. }
    destruct (negb (watch_revents p =? 0)); [destruct (errno =? EAGAIN)|];
      intros H; injection H as <- <-; right; split; (discriminate || exact Nil).
Qed.

Lemma run_from_terminated pow (ss : list stimulus) (phs : list phase) (t : list effect) :
  run pow TERMINATED ss = Some (phs, t) -> ss = [] /\ phs = [] /\ t = [].
Proof.
  destruct ss as [|s ss]; cbn [run].
  - intros H. injection H as <- <-. auto.
  - destruct s; discriminate.
Qed.

(** X19: the sink is released exactly once, and last.  In any run of the
    program, [libevdev_uinput_destroy] is called if and only if the run
    reaches TERMINATED; then TERMINATED is the last phase, the call is the
    last thing the program does, right after closing the inotify
    descriptor, and neither call occurs anywhere earlier in the run. *)
Theorem sink_released_once pow (ph : phase) (ss : list stimulus)
        (phs : list phase) (t : list effect) :
  run pow ph ss = Some (phs, t) ->
  (In TERMINATED phs <-> In DestroyUinput t) /\
  (In TERMINATED phs ->
   exists phs' t',
     phs = phs' ++ [TERMINATED] /\ ~ In TERMINATED phs' /\
     t = t' ++ [CloseInotify; DestroyUinput] /\
     ~ In DestroyUinput t' /\ ~ In CloseInotify t').
Proof.
  revert ph phs t. induction ss as [|s ss IH]; intros ph phs t; cbn [run].
  - intros H. injection H as <- <-. split; [split; intros []|intros []].
  - destruct (step pow ph s) as [[ph' t1]|] eqn:Es; [|discriminate].
    destruct (run pow ph' ss) as [[phs' t2]|] eqn:Er; [|discriminate].
    intros H. injection H as <- <-.
    destruct (step_effects pow ph ph' s t1 Es) as [(-> & t0 & -> & [C1 C2] & _)|[Hne [C1 C2]]].
    + apply run_from_terminated in Er as (_ & -> & ->).
      rewrite app_nil_r. split.
      * split; intros _; [apply in_or_app; right; cbn; auto | cbn; auto].
      * intros _. exists [], t0. cbn [app]. repeat split; auto.
    + destruct (IH ph' phs' t2 Er) as [I1 I2]. split.
      * cbn [In]. rewrite in_app_iff, <- I1. split.
        -- intros [H|H]; [congruence | auto].
        -- intros [H|H]; [contradiction | auto].
      * intros [H|H]; [congruence|].
        destruct (I2 H) as (phs'' & t'' & -> & N1 & -> & N2 & N3).
        exists (ph' :: phs''), (t1 ++ t''). cbn [app]. rewrite app_assoc.
        repeat split; try reflexivity.
        -- cbn [In]. intros [E|E]; [congruence | contradiction].
        -- intros E. apply in_app_or in E. tauto.
        -- intros E. apply in_app_or in E. tauto.
Qed.

Lemma sink_released_once_witness :
  In DestroyUinput
     (snd (match run pow_iter WAIT_HOTPLUG
                   [Notified (Poll 1 0 1) EAGAIN; Scanned pad_behind_gap 5;
                    Notified (Poll 1 1 0) 0]
           with Some r => r | None => ([], []) end)).
Proof.
  destruct (run pow_iter WAIT_HOTPLUG
              [Notified (Poll 1 0 1) EAGAIN; Scanned pad_behind_gap 5;
               Notified (Poll 1 1 0) 0]) as [[phs t]|] eqn:E;
    [|vm_compute in E; discriminate E].
  cbn [snd].
  apply (proj1 (sink_released_once pow_iter _ _ phs t E)).
  vm_compute in E. injection E as <- _. cbn. auto.
Defined.

(** X20: a session is only ever started on a device that qualifies, and
    from a clean slate: when the scan leads to ACTIVE, the device is one
    of [event0] to [event31] and carries the capability signature, its
    descriptor has been opened and not closed, the session state is the
    initial one stamped with the current time, and nothing has been
    written to the sink. *)
Theorem session_starts_clean pow (s : stimulus) (i : nat) (st : session)
        (t : list effect) :
  step pow SEARCHING s = Some (ACTIVE i st, t) ->
  exists ns now,
    s = Scanned ns now /\
    (i < 32)%nat /\ qualifies (ns i) = true /\
    st = init_session now /\
    In (Open i) t /\ ~ In (Close i) t /\
    existsb is_write t = false.
Proof.
  destruct s as [ns now| |]; cbn [step]; try discriminate.
  destruct (find_gamepad ns) as [[[j d]|] t'] eqn:E; intros H; [|discriminate H].
  injection H as <- <- <-.
  exists ns, now.
  destruct (find_gamepad_some ns j d t' E) as (Hj & Hd & Hg & Hlow & Ht).
  pose proof (find_gamepad_trace ns j) as Hc. rewrite E in Hc. destruct Hc as [Hc _].
  pose proof (find_gamepad_calm ns) as [_ W].
  rewrite E in W. cbn [snd] in W.
  repeat split; try assumption.
  - rewrite Hd. exact Hg.
  - rewrite Ht. apply in_or_app. right. cbn. auto.
  - intros HC. apply Hc in HC as (_ & _ & Hn). apply (Hn d). reflexivity.
Qed.

Lemma session_starts_clean_witness :
  exists ns now,
    Scanned five_files 7 = Scanned ns now /\ qualifies (ns 3%nat) = true.
Proof.
  destruct (session_starts_clean pow_iter (Scanned five_files 7) 3 (init_session 7)
              [Open 0; Free 0; Close 0; Open 1; Close 1; Open 2; Free 2; Close 2; Open 3]
              eq_refl)
    as (ns & now & E & _ & Hq & _).
  exists ns, now. auto.
Defined.

(** X21: a hot-plug notification is no false positive: when the inotify
    descriptor fires and the queue is drained, the program scans again;
    if no qualifying device can be reached it is back in WAIT_HOTPLUG
    after that one scan, having written nothing to the sink and released
    nothing. *)
Theorem hotplug_without_pad pow (ns : namespace) (now : Z) (p : poll_result) :
  0 <= poll_rc p -> signal_revents p = 0 -> watch_revents p <> 0 ->
  (~ exists i, reachable_gamepad ns i) ->
  exists t,
    run pow WAIT_HOTPLUG [Notified p EAGAIN; Scanned ns now] =
      Some ([SEARCHING; WAIT_HOTPLUG], t) /\
    t = snd (find_gamepad ns) /\
    existsb is_write t = false /\
    ~ In DestroyUinput t /\ ~ In CloseInotify t.
Proof.
  intros Hp Hs Hw Hn.
  apply find_gamepad_none in Hn.
  pose proof (find_gamepad_calm ns) as [[C1 C2] W].
  exists (snd (find_gamepad ns)).
  repeat split; try assumption.
  cbn [run step].
  destruct (Z.ltb_spec (poll_rc p) 0); [lia|].
  rewrite Hs. cbn [Z.eqb negb].
  destruct (Z.eqb_spec (watch_revents p) 0); [contradiction|]. cbn [negb].
  change (EAGAIN =? EAGAIN) with true. cbn iota.
  destruct (find_gamepad ns) as [[[i d]|] t'] eqn:E; [discriminate Hn|].
  cbn [step]. rewrite E. cbn [snd app]. rewrite app_nil_r. reflexivity.
Qed.

Lemma hotplug_without_pad_witness :
  exists t,
    run pow_iter WAIT_HOTPLUG [Notified (Poll 1 0 1) EAGAIN; Scanned pad_behind_gap 9] =
      Some ([SEARCHING; WAIT_HOTPLUG], t).
Proof.
  destruct (hotplug_without_pad pow_iter pad_behind_gap 9 (Poll 1 0 1))
    as (t & H & _); [cbn; lia | reflexivity | discriminate | | exists t; exact H].
  intros (i & Hi & Hq & Ho).
  destruct i as [|i]; [discriminate Hq|].
  specialize (Ho 0%nat ltac:(lia)). discriminate Ho.
Defined.

(** X22: a pending termination signal wins over everything else that is
    ready.  In the session loop and in the hot-plug wait alike, once
    [poll] has succeeded and the signal descriptor has fired, the program
    terminates without reading the device or the inotify queue (whatever
    they hold, even a disconnect or a read error), writes nothing to the
    sink, and releases the device first, if it has one, then the inotify
    descriptor, then the sink. *)
Theorem termination_has_priority pow (p : poll_result) :
  0 <= poll_rc p -> signal_revents p <> 0 ->
  (forall g st now rc ev,
     step pow (ACTIVE g st) (Polled now p rc ev) =
       Some (TERMINATED, [Free g; Close g; CloseInotify; DestroyUinput])) /\
  (forall errno,
     step pow WAIT_HOTPLUG (Notified p errno) =
       Some (TERMINATED, [CloseInotify; DestroyUinput])).
Proof.
  intros Hp Hs. split.
  - intros g st now rc ev. cbn [step]. unfold iteration.
    destruct (Z.ltb_spec (poll_rc p) 0); [lia|].
    destruct (Z.eqb_spec (signal_revents p) 0); [contradiction|]. reflexivity.
  - intros errno. cbn [step].
    destruct (Z.ltb_spec (poll_rc p) 0); [lia|].
    destruct (Z.eqb_spec (signal_revents p) 0); [contradiction|]. reflexivity.
Qed.

Lemma termination_has_priority_witness :
  step pow_iter (ACTIVE 3 both_sticks) (Polled 5 (Poll 2 1 1) (- ENODEV) syn_report) =
    Some (TERMINATED, [Free 3; Close 3; CloseInotify; DestroyUinput]%nat).
Proof.
  apply (proj1 (termination_has_priority pow_iter (Poll 2 1 1)
                  ltac:(cbn; lia) ltac:(discriminate))).
Defined.

(** ** The deltas are outputs only *)

Lemma handle_event_with_deltas (st : session) (ev : event) (a b c d : Z) :
  handle_event (with_deltas st a b c d) ev =
  (with_deltas (fst (handle_event st ev)) a b c d, snd (handle_event st ev)).
Proof.
  unfold handle_event.
  destruct (ev_type ev =? EV_ABS).
  - unfold on_abs. cbn [with_deltas lx ly rx ry slx sly srx sry hat0x hat0y lz rz last_time].
    destruct (hat_axis KEY_LEFT KEY_RIGHT _ _), (hat_axis KEY_UP KEY_DOWN _ _),
      (trigger_latch KEY_LEFTCTRL _ _), (trigger_latch KEY_LEFTSHIFT _ _).
    repeat match goal with
           | |- context [if ?c then _ else _] => destruct c; [reflexivity|]
           end.
    reflexivity.
  - destruct (ev_type ev =? EV_KEY); reflexivity.
Qed.

(** X23: the stored deltas are outputs only: apart from choosing the
    timeout of the wait, the deltas written by earlier passes have no
    influence on a pass.  Two session states that differ only in
    [slx], [sly], [srx], [sry] give the same outcome, the same next state
    and the same writes. *)
Theorem deltas_are_write_only pow (st : session) (a b c d now : Z) (p : poll_result)
        (rc : Z) (ev : event) :
  iteration pow (with_deltas st a b c d) now p rc ev = iteration pow st now p rc ev.
Proof.
  unfold iteration. fold (clocked st now).
  change {| lx := lx (with_deltas st a b c d); ly := ly (with_deltas st a b c d);
            rx := rx (with_deltas st a b c d); ry := ry (with_deltas st a b c d);
            slx := slx (with_deltas st a b c d); sly := sly (with_deltas st a b c d);
            srx := srx (with_deltas st a b c d); sry := sry (with_deltas st a b c d);
            hat0x := hat0x (with_deltas st a b c d);
            hat0y := hat0y (with_deltas st a b c d);
            lz := lz (with_deltas st a b c d); rz := rz (with_deltas st a b c d);
            last_time := now |}
    with (with_deltas (clocked st now) a b c d).
  cbn [with_deltas last_time].
  destruct (poll_rc p <? 0); [reflexivity|].
  destruct (negb (signal_revents p =? 0)); [reflexivity|].
  assert (R : forall s, recompute pow (with_deltas s a b c d) (int64 (now - last_time st)) =
                        recompute pow s (int64 (now - last_time st))).
  { intros s. reflexivity. }
  destruct (negb (watch_revents p =? 0)).
  - destruct (rc <? 0); [reflexivity|].
    rewrite handle_event_with_deltas.
    destruct (handle_event (clocked st now) ev) as [st1 out1]. cbn [fst snd].
    rewrite R. reflexivity.
  - rewrite R. reflexivity.
Qed.

(** X24: a stick event takes effect in the pass that reads it: when a
    pass reads an [EV_ABS] event for one of the four stick axes, the new
    state holds the event's value as that axis' position, the delta stored
    for the axis is the accelerator's result for that value and the time
    elapsed since the previous pass, and the pass writes motion and
    markers only. *)
Theorem stick_event_is_immediate pow (st st' : session) (now : Z) (p : poll_result)
        (rc code v : Z) (out : list event) :
  iteration pow st now p rc (Event EV_ABS code v) = Continue st' out ->
  watch_revents p <> 0 ->
  let dt := int64 (now - last_time st) in
  (code = ABS_X -> lx st' = v /\ axis_delta pow lparams v dt = Some (slx st')) /\
  (code = ABS_Y -> ly st' = v /\ axis_delta pow lparams v dt = Some (sly st')) /\
  (code = ABS_RX -> rx st' = v /\ axis_delta pow rparams v dt = Some (srx st')) /\
  (code = ABS_RY -> ry st' = v /\ axis_delta pow rparams v dt = Some (sry st')) /\
  (In code [ABS_X; ABS_Y; ABS_RX; ABS_RY] ->
   forallb (fun e => is_rel_event e || is_syn_report e) out = true).
Proof.
  intros H Hw dt.
  destruct (iteration_continue pow st st' now p rc _ out H)
    as (_ & _ & st1 & out1 & out2 & Hev & Hre & ->).
  destruct Hev as [(_ & _ & E)|(Hw0 & _)]; [|contradiction].
  destruct (recompute_inv pow st1 st' _ out2 Hre)
    as (-> & Dlx & Dly & Drx & Dry & Elx & Ely & Erx & Ery & _).
  fold dt in Dlx, Dly, Drx, Dry.
  assert (Emit : forallb (fun e => is_rel_event e || is_syn_report e)
                   (emit_pointer (slx st') (sly st') ++ emit_scroll (srx st') (sry st')) = true).
  { rewrite forallb_app. unfold emit_pointer, emit_scroll.
    destruct (negb (slx st' =? 0) || negb (sly st' =? 0)),
      (negb (srx st' =? 0) || negb (sry st' =? 0));
      try destruct (c_abs (srx st') >? c_abs (sry st')); reflexivity. }
  unfold handle_event in E. cbn [ev_type ev_code ev_value] in E.
  change (EV_ABS =? EV_ABS) with true in E. cbn iota in E. unfold on_abs in E.
  split; [|split; [|split; [|split]]].
  - intros ->. change (ABS_X =? ABS_X) with true in E. cbn iota in E.
    injection E as <- <-. cbn [lx] in Dlx. split; [rewrite Elx; reflexivity | exact Dlx].
  - intros ->. change (ABS_Y =? ABS_X) with false in E.
    change (ABS_Y =? ABS_Y) with true in E. cbn iota in E.
    injection E as <- <-. cbn [ly] in Dly. split; [rewrite Ely; reflexivity | exact Dly].
  - intros ->. change (ABS_RX =? ABS_X) with false in E.
    change (ABS_RX =? ABS_Y) with false in E.
    change (ABS_RX =? ABS_RX) with true in E. cbn iota in E.
    injection E as <- <-. cbn [rx] in Drx. split; [rewrite Erx; reflexivity | exact Drx].
  - intros ->. change (ABS_RY =? ABS_X) with false in E.
    change (ABS_RY =? ABS_Y) with false in E.
    change (ABS_RY =? ABS_RX) with false in E.
    change (ABS_RY =? ABS_RY) with true in E. cbn iota in E.
    injection E as <- <-. cbn [ry] in Dry. split; [rewrite Ery; reflexivity | exact Dry].
  - intros Hin.
    assert (O : out1 = []).
    { cbn [In] in Hin.
      destruct Hin as [<-|[<-|[<-|[<-|[]]]]]; vm_compute in E; injection E as _ <-;
        reflexivity. }
    rewrite O. exact Emit.
Qed.

Lemma stick_event_is_immediate_witness :
  exists st' out,
    iteration pow_iter (init_session 0) 20000000 (Poll 1 0 1) 0 (Event EV_ABS ABS_X 32767)
      = Continue st' out /\
    lx st' = 32767 /\ slx st' = 15.
Proof.
  destruct (iteration pow_iter (init_session 0) 20000000 (Poll 1 0 1) 0
              (Event EV_ABS ABS_X 32767)) as [st' out| | | |] eqn:E;
    try (vm_compute in E; discriminate E).
  exists st', out. split; [reflexivity|].
  destruct (stick_event_is_immediate pow_iter (init_session 0) st' 20000000 (Poll 1 0 1)
              0 ABS_X 32767 out E ltac:(discriminate)) as ([Hl Hd] & _); [reflexivity|].
  split; [exact Hl|].
  assert (H15 : Some 15 = Some (slx st')) by (rewrite <- Hd; vm_compute; reflexivity).
  congruence.
Defined.

(** ** Every declared code is used *)

Ltac probe st now p ev :=
  exists st, now, p, ev;
  eexists; eexists; eexists;
  split; [vm_compute; reflexivity|];
  cbn; repeat (first [left; reflexivity | right]).

(** X25: the virtual device declares nothing the session cannot produce:
    for every type and code that [create_virtual_device] enables, some
    pass of the session loop writes an event of that type and code. *)
Theorem declared_codes_are_used (type code : Z) :
  In (type, code) (dev_codes virtual_device) ->
  exists st now p ev st' out v,
    iteration pow_iter st now p 0 ev = Continue st' out /\
    In (Event type code v) out.
Proof.
  intros H. cbn in H.
  repeat (destruct H as [H|H];
          [injection H as <- <-;
           first
             [ solve [probe (init_session 0) 0 (Poll 1 0 1) (Event EV_KEY BTN_SOUTH 1)]
             | solve [probe (init_session 0) 0 (Poll 1 0 1) (Event EV_KEY BTN_EAST 1)]
             | solve [probe (init_session 0) 0 (Poll 1 0 1) (Event EV_KEY BTN_NORTH 1)]
             | solve [probe (init_session 0) 0 (Poll 1 0 1) (Event EV_KEY BTN_WEST 1)]
             | solve [probe (init_session 0) 0 (Poll 1 0 1) (Event EV_KEY BTN_TR 1)]
             | solve [probe (init_session 0) 0 (Poll 1 0 1) (Event EV_KEY BTN_START 1)]
             | solve [probe (init_session 0) 0 (Poll 1 0 1) (Event EV_KEY BTN_TL 1)]
             | solve [probe (init_session 0) 0 (Poll 1 0 1) (Event EV_KEY BTN_THUMBL 1)]
             | solve [probe (init_session 0) 0 (Poll 1 0 1) (Event EV_KEY BTN_THUMBR 1)]
             | solve [probe (init_session 0) 0 (Poll 1 0 1) (Event EV_ABS ABS_Z 600)]
             | solve [probe (init_session 0) 0 (Poll 1 0 1) (Event EV_ABS ABS_HAT0X (-1))]
             | solve [probe (init_session 0) 0 (Poll 1 0 1) (Event EV_ABS ABS_HAT0X 1)]
             | solve [probe (init_session 0) 0 (Poll 1 0 1) (Event EV_ABS ABS_HAT0Y (-1))]
             | solve [probe (init_session 0) 0 (Poll 1 0 1) (Event EV_ABS ABS_HAT0Y 1)]
             | solve [probe both_sticks 20000000 (Poll 0 0 0) syn_report]
             | solve [probe scroll_sideways 20000000 (Poll 0 0 0) syn_report] ]
          |]).
  destruct H.
Qed.

Lemma declared_codes_are_used_witness :
  exists st now p ev st' out v,
    iteration pow_iter st now p 0 ev = Continue st' out /\
    In (Event EV_REL REL_HWHEEL_HI_RES v) out.
Proof.
  apply declared_codes_are_used. cbn. tauto.
Defined.
